(** * Skill packages: the Scaffolder and the Validator

    A shallow embedding of

      - [.github/skills/generate-agent-skills/scripts/validate_skill.py]
      - [assets/skills/generate-agent-skills/scripts/scaffold_skill.py]

    together with the parts of the Python runtime the two scripts lean on:
    [str] methods, the [re] module restricted to the constructs of the three
    patterns in the scripts, [posixpath], and a POSIX directory tree.

    Conventions of the model.
      - A Python [str] is a list of Unicode code points.
      - The file system is a tree of directories and files, without symbolic
        links, permissions or NUL bytes in names: an operation fails only for
        structural reasons (a missing entry, a file where a directory is
        needed, an entry that already exists).
      - [print] appends one line to the standard output of the run;
        [sys.exit] and an exception nobody catches end the run. *)

From Stdlib Require Import NArith String Ascii.
From stdpp Require Import gmap list.

Set Warnings "-register-all".
Local Open Scope N_scope.

(** ** Python strings *)

Definition char := N.
Definition str := list char.

(** [u "..."] is the [str] written between the quotes (the file is UTF-8). *)
Fixpoint utf8_decode (bs : list N) : str :=
  match bs with
  | [] => []
  | b :: r =>
      if b <? 0x80 then b :: utf8_decode r
      else if b <? 0xE0 then
        match r with
        | b2 :: r' => (N.land b 0x1F * 64 + N.land b2 0x3F) :: utf8_decode r'
        | _ => []
        end
      else if b <? 0xF0 then
        match r with
        | b2 :: b3 :: r' =>
            (N.land b 0x0F * 4096 + N.land b2 0x3F * 64 + N.land b3 0x3F)
              :: utf8_decode r'
        | _ => []
        end
      else
        match r with
        | b2 :: b3 :: b4 :: r' =>
            (N.land b 0x07 * 262144 + N.land b2 0x3F * 4096
             + N.land b3 0x3F * 64 + N.land b4 0x3F) :: utf8_decode r'
        | _ => []
        end
  end.

Definition u (s : string) : str :=
  utf8_decode (List.map N_of_ascii (list_ascii_of_string s)).
Arguments u s%_string : simpl never.

Definition LF : char := 10.
Definition CR : char := 13.
Definition sep : char := 47.        (* "/" *)
Definition hyphen : char := 45.     (* "-" *)
Definition space : char := 32.
Definition dquote : char := 34.
Definition squote : char := 39.

Definition dot : str := u ".".
Definition dotdot : str := u "..".

Definition str_eqb (a b : str) : bool := bool_decide (a = b).

(** [str.isspace] on one character: the code points Python counts as
    whitespace, used by [\s] in a [str] pattern and by [str.strip()]. *)
Definition is_space (c : char) : bool :=
  ((0x09 <=? c) && (c <=? 0x0D)) || ((0x1C <=? c) && (c <=? 0x20))
  || (c =? 0x85) || (c =? 0xA0) || (c =? 0x1680)
  || ((0x2000 <=? c) && (c <=? 0x200A))
  || (c =? 0x2028) || (c =? 0x2029) || (c =? 0x202F) || (c =? 0x205F)
  || (c =? 0x3000).

Definition is_lower (c : char) : bool := (97 <=? c) && (c <=? 122).
Definition is_upper (c : char) : bool := (65 <=? c) && (c <=? 90).
Definition is_digit (c : char) : bool := (48 <=? c) && (c <=? 57).

(** [s.split(c)] for a one-character separator. *)
Fixpoint split (c : char) (s : str) : list str :=
  match s with
  | [] => [[]]
  | x :: s' =>
      if x =? c then [] :: split c s'
      else match split c s' with
           | w :: ws => (x :: w) :: ws
           | [] => [[x]]
           end
  end.

(** [j.join(ws)]. *)
Fixpoint join (j : str) (ws : list str) : str :=
  match ws with
  | [] => []
  | [w] => w
  | w :: ws' => w ++ j ++ join j ws'
  end.

Fixpoint lstrip (s : str) : str :=
  match s with
  | c :: s' => if is_space c then lstrip s' else s
  | [] => []
  end.

Definition rstrip (s : str) : str := rev (lstrip (rev s)).

(** [s.strip()]. *)
Definition strip (s : str) : str := rstrip (lstrip s).

Definition startswith (s p : str) : bool := str_eqb (take (length p) s) p.

Definition endswith_char (s : str) (c : char) : bool :=
  match last s with Some x => x =? c | None => false end.

(** [needle in s]. *)
Fixpoint contains (s needle : str) : bool :=
  startswith s needle
  || match s with
     | [] => false
     | _ :: s' => contains s' needle
     end.

(** [s.capitalize()], on the ASCII letters: first character upper-cased, the
    others lower-cased.  The only caller passes words of a name that has
    passed the naming check, which holds no other letters. *)
Definition upper (c : char) : char := if is_lower c then c - 32 else c.
Definition lower (c : char) : char := if is_upper c then c + 32 else c.

Definition capitalize (s : str) : str :=
  match s with
  | [] => []
  | c :: s' => upper c :: List.map lower s'
  end.

(** ** The [re] module

    The three patterns of the scripts are sequences of anchors, single
    characters or character classes with an optional greedy [*] or [+], and
    one capture group.  [sre] is the backtracking matcher on such sequences:
    a repetition takes as many characters as it can and gives them back one
    at a time while the rest of the pattern fails. *)

Inductive item :=
| Bol                          (* ^ *)
| Eol                          (* $ *)
| One (p : char → bool)        (* a literal character or a class *)
| Star (p : char → bool)       (* class* *)
| Plus (p : char → bool)       (* class+ *)
| GroupOpen                    (* ( *)
| GroupClose.                  (* ) *)

Definition pattern := list item.

(** Start and end offsets of group 1. *)
Record marks := Marks { g_open : nat; g_close : nat }.

(** A match: its end offset and the marks of the group. *)
Definition result := option (nat * marks).

(** What remains to be matched, at offset [pos], after the character [prev]
    ([None] at the start of the string), in front of [rest]. *)
Definition kont := nat → option char → str → marks → result.

(** [^]: at the start of the string; with [re.MULTILINE] also right after a
    newline. *)
Definition at_bol (multiline : bool) (prev : option char) : bool :=
  match prev with
  | None => true
  | Some c => multiline && (c =? LF)
  end.

(** [$]: at the end of the string or just before a newline that ends it; with
    [re.MULTILINE] before any newline. *)
Definition at_eol (multiline : bool) (rest : str) : bool :=
  match rest with
  | [] => true
  | c :: rest' =>
      (c =? LF) && (multiline || match rest' with [] => true | _ => false end)
  end.

Fixpoint greedy (p : char → bool) (k : kont)
    (pos : nat) (prev : option char) (rest : str) (mk : marks) {struct rest}
  : result :=
  match rest with
  | c :: rest' =>
      if p c then
        match greedy p k (S pos) (Some c) rest' mk with
        | Some r => Some r
        | None => k pos prev rest mk
        end
      else k pos prev rest mk
  | [] => k pos prev rest mk
  end.

Definition one (p : char → bool) (k : kont) : kont :=
  λ pos prev rest mk,
    match rest with
    | c :: rest' => if p c then k (S pos) (Some c) rest' mk else None
    | [] => None
    end.

Fixpoint sre (multiline : bool) (its : pattern) : kont :=
  match its with
  | [] => λ pos _ _ mk, Some (pos, mk)
  | it :: its' =>
      let k := sre multiline its' in
      match it with
      | Bol => λ pos prev rest mk,
          if at_bol multiline prev then k pos prev rest mk else None
      | Eol => λ pos prev rest mk,
          if at_eol multiline rest then k pos prev rest mk else None
      | One p => one p k
      | Star p => greedy p k
      | Plus p => one p (greedy p k)
      | GroupOpen => λ pos prev rest mk, k pos prev rest (Marks pos (g_close mk))
      | GroupClose => λ pos prev rest mk, k pos prev rest (Marks (g_open mk) pos)
      end
  end.

Definition no_marks : marks := Marks 0 0.

(** [re.match(pattern, s)]: a match that starts at offset 0. *)
Definition re_match (multiline : bool) (its : pattern) (s : str) : result :=
  sre multiline its 0%nat None s no_marks.

(** [re.search(pattern, s)]: the match at the leftmost offset that has one. *)
Fixpoint search_from (multiline : bool) (its : pattern)
    (pos : nat) (prev : option char) (rest : str) : result :=
  match sre multiline its pos prev rest no_marks with
  | Some r => Some r
  | None =>
      match rest with
      | c :: rest' => search_from multiline its (S pos) (Some c) rest'
      | [] => None
      end
  end.

Definition re_search (multiline : bool) (its : pattern) (s : str) : result :=
  search_from multiline its 0%nat None s.

(** [m.group(1)] of a match in [s]. *)
Definition group1 (s : str) (mk : marks) : str :=
  take (g_close mk - g_open mk)%nat (drop (g_open mk) s).

(** A run of literal characters. *)
Definition lit (s : str) : pattern := List.map (λ c, One (N.eqb c)) s.

(** [[a-z0-9]], [[a-z0-9-]], [.] and [\s]. *)
Definition alnum (c : char) : bool := is_lower c || is_digit c.
Definition alnum_hyphen (c : char) : bool := alnum c || (c =? hyphen).
Definition any (c : char) : bool := negb (c =? LF).

(** [r'^[a-z0-9][a-z0-9-]*[a-z0-9]$'], lines 15 of the validator and 351 of
    the scaffolder. *)
Definition NAME_PATTERN : pattern :=
  [Bol; One alnum; Star alnum_hyphen; One alnum; Eol].

(** [r'^name:\s*(.+)$'] and [r'^description:\s*(.+)$'], lines 27 and 33 of
    the validator, both used with [re.MULTILINE]: the text up to the colon,
    then [\s*(.+)$]. *)
Definition field_pattern (key_colon : str) : pattern :=
  [Bol] ++ lit key_colon
        ++ [Star is_space; GroupOpen; Plus any; GroupClose; Eol].

Definition NAME_FIELD : pattern := field_pattern (u "name:").
Definition DESCRIPTION_FIELD : pattern := field_pattern (u "description:").

(** The naming check: [re.match(NAME_PATTERN, s)] is not [None]. *)
Definition name_rule (s : str) : bool :=
  bool_decide (is_Some (re_match false NAME_PATTERN s)).

(** ** [posixpath] *)

(** [os.path.join(a, b)]. *)
Definition path_join (a b : str) : str :=
  if startswith b [sep] then b
  else if str_eqb a [] || endswith_char a sep then a ++ b
  else a ++ [sep] ++ b.

(** The body of the loop of [normpath] over the components of the path. *)
Definition normpath_step (initial_slashes : nat)
    (new_comps : list str) (comp : str) : list str :=
  if str_eqb comp [] || str_eqb comp dot then new_comps
  else if negb (str_eqb comp dotdot)
          || (Nat.eqb initial_slashes 0 && bool_decide (new_comps = []))
          || match last new_comps with
             | Some c => str_eqb c dotdot
             | None => false
             end
  then new_comps ++ [comp]
  else match new_comps with
       | [] => new_comps
       | _ :: _ => removelast new_comps
       end.

(** POSIX keeps exactly two leading slashes apart from one and from three or
    more. *)
Definition initial_slashes_of (path : str) : nat :=
  if startswith path [sep] then
    if startswith path [sep; sep] && negb (startswith path [sep; sep; sep])
    then 2 else 1
  else 0.

(** [os.path.normpath(path)]. *)
Definition normpath (path : str) : str :=
  if str_eqb path [] then dot
  else
    let initial_slashes := initial_slashes_of path in
    let comps := foldl (normpath_step initial_slashes) [] (split sep path) in
    let path := replicate initial_slashes sep ++ join [sep] comps in
    if str_eqb path [] then dot else path.

(** [os.path.basename(p)]: what follows the last slash. *)
Definition basename (p : str) : str := default [] (last (split sep p)).

(** ** The file system *)

(** What a file holds: bytes that decode to a text in the encoding of the
    locale, or bytes that do not. *)
Inductive contents :=
| Text (s : str)
| Undecodable.

Inductive node :=
| File (data : contents) (executable : bool)
| Dir (entries : gmap str node).

(** A place in the tree: the names from the root down.  This is also the
    model of an absolute [pathlib.Path]. *)
Definition location := list str.

Record filesystem := FS { root : node; cwd : location }.

Inductive exn :=
| FileExistsError
| FileNotFoundError
| NotADirectoryError
| IsADirectoryError
| UnicodeDecodeError.

Fixpoint walk (t : node) (p : location) : option node :=
  match p with
  | [] => Some t
  | c :: p' =>
      match t with
      | Dir m => m !! c ≫= λ t', walk t' p'
      | File _ _ => None
      end
  end.

Definition is_dir_node (o : option node) : bool :=
  match o with
  | Some (Dir _) => true
  | _ => false
  end.

(** One component of a path given as a string: the place reached so far has
    to be a directory; an empty component and [.] stay there, [..] goes up,
    a name goes down. *)
Definition step (t : node) (cur : option location) (c : str)
  : option location :=
  match cur with
  | None => None
  | Some l =>
      if is_dir_node (walk t l) then
        if str_eqb c [] || str_eqb c dot then Some l
        else if str_eqb c dotdot then Some (removelast l)
        else Some (l ++ [c])
      else None
  end.

(** The place a path string names, from the root when it starts with a slash
    and from the working directory otherwise. *)
Definition locate (fs : filesystem) (path : str) : option location :=
  if str_eqb path [] then None
  else foldl (step (root fs))
             (Some (if startswith path [sep] then [] else cwd fs))
             (split sep path).

Definition stat (fs : filesystem) (path : str) : option node :=
  locate fs path ≫= walk (root fs).

(** [os.path.exists] and [os.path.isdir]. *)
Definition os_path_exists (fs : filesystem) (path : str) : bool :=
  bool_decide (is_Some (stat fs path)).

Definition os_path_isdir (fs : filesystem) (path : str) : bool :=
  is_dir_node (stat fs path).

(** Reading in text mode turns [\r\n] and a lone [\r] into [\n]. *)
Fixpoint universal_newlines (s : str) : str :=
  match s with
  | [] => []
  | c :: s' =>
      if c =? CR then
        LF :: match s' with
              | d :: s'' =>
                  if d =? LF then universal_newlines s''
                  else universal_newlines s'
              | [] => []
              end
      else c :: universal_newlines s'
  end.

(** [with open(path, 'r') as f: content = f.read()]. *)
Definition read_text (fs : filesystem) (path : str) : exn + str :=
  match stat fs path with
  | None => inl FileNotFoundError
  | Some (Dir _) => inl IsADirectoryError
  | Some (File Undecodable _) => inl UnicodeDecodeError
  | Some (File (Text s) _) => inr (universal_newlines s)
  end.

(** ** Runs *)

(** A line of standard output: a text, or a text followed by the message of
    an exception, which the model keeps as the exception. *)
Inductive line :=
| Line (s : str)
| ErrLine (s : str) (e : exn).

(** How a run ends: the function returns, [sys.exit(code)] is called, or an
    exception reaches the top level. *)
Inductive ending :=
| Returned
| Exited (code : Z)
| Uncaught (e : exn).

(** The exit status of the process. *)
Definition exit_code (e : ending) : Z :=
  match e with
  | Returned => 0
  | Exited code => code
  | Uncaught _ => 1
  end.

Record run := Run { stdout : list line; ended : ending }.

(** ** validate_skill.py *)

Module Validator.

Definition SKILL_MD : str := u "SKILL.md".

Definition NAMING_VIOLATION : str :=
  u "Directory name violates regex (lowercase/hyphens only).".
Definition MISSING_SKILL_MD : str :=
  u "Missing SKILL.md (The mandatory entry point).".
Definition MISSING_NAME : str := u "YAML frontmatter missing 'name' field.".
Definition MISSING_DESCRIPTION : str :=
  u "YAML frontmatter missing 'description' field.".
Definition name_mismatch (declared skill_dir : str) : str :=
  u "YAML name '" ++ declared ++ u "' mismatches directory '" ++ skill_dir
    ++ u "'.".
Definition NO_REFERENCES : str :=
  u "No 'references/' directory found. (Acceptable for simple skills).".
Definition NO_SCRIPTS : str :=
  u "No 'scripts/' directory found. (Acceptable for pure-prompt skills).".

(** Line 7. *)
Definition skill_dir_of (path : str) : str := basename (normpath path).

(** [name_match.group(1).strip()] when [name_match] is not [None]
    (lines 27 to 31). *)
Definition declared_name (content : str) : option str :=
  match re_search true NAME_FIELD content with
  | Some (_, mk) => Some (strip (group1 content mk))
  | None => None
  end.

(** Line 33: the search for a description line finds one. *)
Definition has_description (content : str) : bool :=
  bool_decide (is_Some (re_search true DESCRIPTION_FIELD content)).

(** Lines 27 to 34: what the text of the entry document adds to [errors]. *)
Definition metadata_errors (skill_dir content : str) : list str :=
  match declared_name content with
  | None => [MISSING_NAME]
  | Some declared =>
      if str_eqb declared skill_dir then []
      else [name_mismatch declared skill_dir]
  end
  ++ (if has_description content then [] else [MISSING_DESCRIPTION]).

(** Lines 36 to 45. *)
Definition advisories (fs : filesystem) (path : str) : list str :=
  let has_refs := os_path_isdir fs (path_join path (u "references")) in
  let has_scripts := os_path_isdir fs (path_join path (u "scripts")) in
  (if has_refs then [] else [NO_REFERENCES])
  ++ (if has_scripts then [] else [NO_SCRIPTS]).

(** Lines 7 to 45: the lists [errors] and [warnings] when the final report is
    reached, or the exception that [open] or [read] raised on the way. *)
Definition findings (fs : filesystem) (path : str)
  : exn + (list str * list str) :=
  let skill_dir := skill_dir_of path in
  let skill_md_path := path_join path SKILL_MD in
  let errors := [] in
  (* 1. CRITICAL: Identity & Naming *)
  let errors :=
    if negb (name_rule skill_dir) then errors ++ [NAMING_VIOLATION]
    else errors in
  (* 2. CRITICAL: The Entry Point *)
  let errors :=
    if negb (os_path_exists fs skill_md_path)
    then errors ++ [MISSING_SKILL_MD] else errors in
  (* 3. CRITICAL: Metadata Consistency *)
  let errors :=
    if os_path_exists fs skill_md_path then
      match read_text fs skill_md_path with
      | inl e => inl e
      | inr content => inr (errors ++ metadata_errors skill_dir content)
      end
    else inr errors in
  (* 4. ADVISORY: Progressive Disclosure *)
  match errors with
  | inl e => inl e
  | inr errors => inr (errors, advisories fs path)
  end.

(** Lines 47 to 56: the final report. *)
Definition final_report (errors warnings : list str) : run :=
  match errors with
  | _ :: _ =>
      Run ([Line (LF :: u "[FAIL] Critical Violations:")]
           ++ List.map (λ e, Line (u "  ❌ " ++ e)) errors)
          (Exited 1)
  | [] =>
      Run ([Line (LF :: u "[PASS] Skill is valid.")]
           ++ match warnings with
              | _ :: _ =>
                  [Line (u "[INFO] Architectural Notes:")]
                  ++ List.map (λ w, Line (u "  ℹ️  " ++ w)) warnings
              | [] => []
              end)
          Returned
  end.

Definition validate_skill (fs : filesystem) (path : str) : run :=
  let banner := Line (u "Validating skill: " ++ skill_dir_of path ++ u "...") in
  match findings fs path with
  | inl e => Run [banner] (Uncaught e)
  | inr (errors, warnings) =>
      let r := final_report errors warnings in
      Run (banner :: stdout r) (ended r)
  end.

(** The CRITICAL and the ADVISORY list of a run that reaches its report. *)
Definition critical (fs : filesystem) (path : str) : option (list str) :=
  match findings fs path with
  | inr (errors, _) => Some errors
  | inl _ => None
  end.

Definition advisory (fs : filesystem) (path : str) : option (list str) :=
  match findings fs path with
  | inr (_, warnings) => Some warnings
  | inl _ => None
  end.

End Validator.

(** ** Changing the tree *)

(** [place t p n] puts [n] at [p]; the parent of [p] has to be a directory. *)
Fixpoint place (t : node) (p : location) (n : node) : option node :=
  match p with
  | [] => Some n
  | c :: p' =>
      match t with
      | File _ _ => None
      | Dir m =>
          match p' with
          | [] => Some (Dir (<[c := n]> m))
          | _ :: _ =>
              child ← m !! c;
              child' ← place child p' n;
              Some (Dir (<[c := child']> m))
          end
      end
  end.

(** Why [p] cannot be reached: a file on the way, or a missing entry. *)
Fixpoint lookup_error (t : node) (p : location) : exn :=
  match p with
  | [] => FileNotFoundError
  | c :: p' =>
      match t with
      | File _ _ => NotADirectoryError
      | Dir m =>
          match m !! c with
          | Some t' => lookup_error t' p'
          | None => FileNotFoundError
          end
      end
  end.

Definition store (t : node) (p : location) (n : node) : exn + node :=
  match place t p n with
  | Some t' => inr t'
  | None => inl (lookup_error t p)
  end.

(** The directories along [p], with those that are missing created; [None]
    when a file is in the way. *)
Fixpoint make_dirs (t : node) (p : location) : option node :=
  match t with
  | File _ _ => None
  | Dir m =>
      match p with
      | [] => Some t
      | c :: p' =>
          child ← make_dirs (default (Dir ∅) (m !! c)) p';
          Some (Dir (<[c := child]> m))
      end
  end.

(** [p.exists()] and [p.mkdir(parents=..., exist_ok=...)] of [pathlib].
    [exists()] is [False] for a missing entry and for a file on the way to
    [p].  The tree has neither name length limits nor permissions: the
    [OSError] that [exists()] lets through for them (a name longer than
    [NAME_MAX], a directory that cannot be searched) is not modelled. *)
Definition Path_exists (t : node) (p : location) : bool :=
  bool_decide (is_Some (walk t p)).

Definition Path_mkdir (t : node) (p : location) (parents exist_ok : bool)
  : exn + node :=
  match walk t p with
  | Some n =>
      if exist_ok && is_dir_node (Some n) then inr t else inl FileExistsError
  | None =>
      if parents then
        match make_dirs t p with
        | Some t' => inr t'
        | None => inl NotADirectoryError
        end
      else store t p (Dir ∅)
  end.

(** [p.write_text(s)]: the file is created, or its contents replaced. *)
Definition Path_write_text (t : node) (p : location) (s : str) : exn + node :=
  match walk t p with
  | Some (Dir _) => inl IsADirectoryError
  | Some (File _ x) => store t p (File (Text s) x)
  | None => store t p (File (Text s) false)
  end.

(** [p.chmod(0o755)]. *)
Definition Path_chmod_755 (t : node) (p : location) : exn + node :=
  match walk t p with
  | Some (Dir _) => inr t
  | Some (File d _) => store t p (File d true)
  | None => inl (lookup_error t p)
  end.

(** [str(p)]. *)
Definition Path_str (p : location) : str := sep :: join [sep] p.

(** [[p, *p.parents]]. *)
Fixpoint parents_upto (n : nat) (p : location) : list location :=
  match n with
  | O => []
  | S n' => take n' p :: parents_upto n' p
  end.

Definition self_and_parents (p : location) : list location :=
  p :: parents_upto (length p) p.

(** ** Scripts as state transformers

    A script runs on the tree and on what it has printed so far.  It ends
    early with [sys.exit] or with an exception; [try_except] is
    [try: ... except Exception as e: ...], which lets [sys.exit] through. *)

Record world := World { tree : node; printed : list line }.

(** What stops a script before its last statement. *)
Inductive abort :=
| SystemExit (code : Z)
| Raised (e : exn).

Definition proc (A : Type) : Type := world → (abort + A) * world.

#[global] Instance proc_ret : MRet proc := λ A a w, (inr a, w).

#[global] Instance proc_bind : MBind proc := λ A B f m w,
  match m w with
  | (inr a, w') => f a w'
  | (inl e, w') => (inl e, w')
  end.

Definition print (s : str) : proc () :=
  λ w, (inr (), World (tree w) (printed w ++ [Line s])).

Definition print_exn (s : str) (e : exn) : proc () :=
  λ w, (inr (), World (tree w) (printed w ++ [ErrLine s e])).

Definition sys_exit {A} (code : Z) : proc A :=
  λ w, (inl (SystemExit code), w).

Definition get_tree : proc node := λ w, (inr (tree w), w).

Definition on_tree (op : node → exn + node) : proc () :=
  λ w, match op (tree w) with
       | inr t => (inr (), World t (printed w))
       | inl e => (inl (Raised e), w)
       end.

Definition try_except {A} (body : proc A) (handler : exn → proc A) : proc A :=
  λ w, match body w with
       | (inl (Raised e), w') => handler e w'
       | r => r
       end.

(** The run of a script from a tree: the tree it leaves and its output. *)
Definition execute (body : proc ()) (t : node) : node * run :=
  match body (World t []) with
  | (inr _, w) => (tree w, Run (printed w) Returned)
  | (inl (SystemExit code), w) => (tree w, Run (printed w) (Exited code))
  | (inl (Raised e), w) => (tree w, Run (printed w) (Uncaught e))
  end.

(** ** scaffold_skill.py *)

Module Scaffolder.

(** A template for [str.format]: text and the two replacement fields. *)
Inductive field := skill_name | skill_title.

Inductive segment :=
| Lit (s : str)
| Field (f : field).

Definition template := list segment.

(** [t.format(skill_name=name, skill_title=title)]. *)
Definition format (t : template) (name title : str) : str :=
  concat (List.map (λ sg, match sg with
                          | Lit s => s
                          | Field skill_name => name
                          | Field skill_title => title
                          end) t).

(** Lines 9 to 88. *)
Definition SKILL_MD_TEMPLATE : template :=
  [Lit (u "---
name: ");
   Field skill_name;
   Lit (u "
description: [TODO: Complete and informative explanation of what the skill does and when to use it. Include WHEN to use this skill - specific scenarios, file types, or tasks that trigger it.]
---

# ");
   Field skill_title;
   Lit (u "

## Overview

[TODO: 1-2 sentences explaining what this skill enables]

## Structuring This Skill

[TODO: Choose the structure that best fits this skill's purpose. Common patterns:

**1. Workflow-Based** (best for sequential processes)
- Works well when there are clear step-by-step procedures
- Example: Document processing with " ++ [dquote] ++ u "Analyze" ++ [dquote] ++ u " → " ++ [dquote] ++ u "Extract" ++ [dquote] ++ u " → " ++ [dquote] ++ u "Validate" ++ [dquote] ++ u " → " ++ [dquote] ++ u "Report" ++ [dquote] ++ u "
- Structure: ## Overview → ## Workflow → ## Step 1 → ## Step 2...
- See `references/workflows.md` for workflow patterns

**2. Task-Based** (best for tool collections)
- Works well when the skill offers different operations/capabilities
- Example: PDF skill with " ++ [dquote] ++ u "Merge PDFs" ++ [dquote] ++ u " → " ++ [dquote] ++ u "Split PDFs" ++ [dquote] ++ u " → " ++ [dquote] ++ u "Extract Text" ++ [dquote] ++ u "
- Structure: ## Overview → ## Quick Start → ## Task Category 1 → ## Task Category 2...

**3. Reference/Guidelines** (best for standards or specifications)
- Works well for brand guidelines, coding standards, or requirements
- Example: Brand styling with " ++ [dquote] ++ u "Brand Guidelines" ++ [dquote] ++ u " → " ++ [dquote] ++ u "Colors" ++ [dquote] ++ u " → " ++ [dquote] ++ u "Typography" ++ [dquote] ++ u "
- Structure: ## Overview → ## Guidelines → ## Specifications → ## Usage...

**4. Capabilities-Based** (best for integrated systems)
- Works well when the skill provides multiple interrelated features
- Example: Data analysis with numbered capability list
- Structure: ## Overview → ## Core Capabilities → ### 1. Feature → ### 2. Feature...

Patterns can be mixed and matched. Most skills combine patterns.

Delete this entire " ++ [dquote] ++ u "Structuring This Skill" ++ [dquote] ++ u " section when done - it's just guidance.]

## Resources

This skill includes example resource directories. Customize or delete as needed:

### scripts/
Executable code (Python/Bash/etc.) for deterministic operations.
- See `scripts/example.py` for a starter template
- **When to use:** Math, file parsing, API calls, automation

### references/
Documentation loaded into context to inform the agent's thinking.
- See `references/example_reference.md` for structure suggestions
- **When to use:** API docs, schemas, detailed guides, domain knowledge
- **Tip:** For large files (>10k words), mention grep patterns in this SKILL.md

### assets/
Files used in output (templates, images, fonts) - NOT loaded into context.
- See `assets/README.md` for explanation
- **When to use:** Boilerplate code, templates, images, fonts

**Delete any unneeded directories.** Not every skill requires all three.

## [TODO: Replace with your main section]

[TODO: Add your skill's core content here. Consider:
- Code samples for technical skills (see `references/output-patterns.md` for patterns)
- Decision trees for complex workflows (see `references/workflows.md`)
- Concrete examples with realistic user requests
- References to scripts/templates/references as needed]

## Next Steps

After creating this skill:
1. Complete all TODO items in this file
2. Update the description to be specific and keyword-rich
3. Customize or delete example files in scripts/, references/, and assets/
4. Run validation: `python3 scripts/validate_skill.py --path .github/skills/");
   Field skill_name;
   Lit (u "`
5. Test the skill with real use cases
6. Iterate based on feedback
")].

(** Lines 317 to 319. *)
Definition title_case_skill_name (name : str) : str :=
  join [space] (List.map capitalize (split hyphen name)).

Definition SKILLS : location := [u ".github"; u "skills"].

(** Lines 321 to 347.  [git_toplevel] is what
    [git rev-parse --show-toplevel] printed, [None] when the call failed;
    [current] is the value of [Path.cwd()]: a run in which [Path.cwd()]
    raises (the working directory has been removed) is not modelled. *)
Definition find_skills_dir (git_toplevel : option location)
    (current : location) : proc location :=
  t ← get_tree;
  let from_git :=
    match git_toplevel with
    | Some git_root =>
        let skills_dir := git_root ++ SKILLS in
        if Path_exists t skills_dir then Some skills_dir else None
    | None => None
    end in
  match from_git with
  | Some skills_dir => mret skills_dir
  | None =>
      match List.find (λ parent, Path_exists t (parent ++ SKILLS))
                      (self_and_parents current) with
      | Some parent => mret (parent ++ SKILLS)
      | None =>
          _ ← print (u "⚠️  Warning: Could not find .github/skills, creating in current directory.");
          mret current
      end
  end.

Section Payload.

(** The texts of lines 90 to 315, written into the example files.  Nothing
    below looks into them.  The script template holds the field
    [skill_name] only and the reference template the field [skill_title]
    only, so that [format] with both values is what lines 394 and 402
    compute with one keyword each. *)
Variables EXAMPLE_SCRIPT_TEMPLATE EXAMPLE_REFERENCE_TEMPLATE : template.
Variable ASSETS_README_TEMPLATE : str.

(** Lines 389 to 410, the body of the [try]. *)
Definition create_resources (skill_path : location) (name title : str)
  : proc () :=
  let scripts_dir := skill_path ++ [u "scripts"] in
  _ ← on_tree (λ t, Path_mkdir t scripts_dir false true);
  let example_script := scripts_dir ++ [u "example.py"] in
  _ ← on_tree (λ t, Path_write_text t example_script
                      (format EXAMPLE_SCRIPT_TEMPLATE name title));
  _ ← on_tree (λ t, Path_chmod_755 t example_script);
  _ ← print (u "✅ Created scripts/example.py");
  let references_dir := skill_path ++ [u "references"] in
  _ ← on_tree (λ t, Path_mkdir t references_dir false true);
  let example_reference := references_dir ++ [u "example_reference.md"] in
  _ ← on_tree (λ t, Path_write_text t example_reference
                      (format EXAMPLE_REFERENCE_TEMPLATE name title));
  _ ← print (u "✅ Created references/example_reference.md");
  let assets_dir := skill_path ++ [u "assets"] in
  _ ← on_tree (λ t, Path_mkdir t assets_dir false true);
  let assets_readme := assets_dir ++ [u "README.md"] in
  _ ← on_tree (λ t, Path_write_text t assets_readme ASSETS_README_TEMPLATE);
  print (u "✅ Created assets/README.md").

(** Lines 417 to 429. *)
Definition print_next_steps (skill_path : location) (name : str)
    (simple_mode : bool) : proc () :=
  _ ← print (LF :: u "🎉 Skill '" ++ name ++ u "' initialized successfully!");
  _ ← print (u "📁 Location: " ++ Path_str skill_path);
  _ ← print (LF :: u "📋 Next steps:");
  _ ← print (u "   1. Edit SKILL.md to complete the TODO items");
  _ ← print (u "   2. Update the description to be specific and keyword-rich");
  _ ← (if negb simple_mode then
         _ ← print (u "   3. Customize or delete the example files in scripts/, references/, and assets/");
         _ ← print (u "   4. Consult references/workflows.md and output-patterns.md for guidance");
         print (u "   5. Validate: python3 scripts/validate_skill.py --path "
                  ++ Path_str skill_path)
       else
         print (u "   3. Validate: python3 scripts/validate_skill.py --path "
                  ++ Path_str skill_path));
  print (u "   6. Test with real use cases and iterate!").

(** Lines 349 to 429.  A name that passed the check of line 351 holds no
    slash and is neither [.] nor [..], so [skills_root / skill_name] is
    [skills_root] with that one name appended. *)
Definition scaffold_skill_body (git_toplevel : option location)
    (current : location) (name : str) (simple_mode : bool) : proc () :=
  (* 1. Validation *)
  if negb (name_rule name) then
    _ ← print (u "❌ Error: Name '" ++ name ++ u "' violates naming constraints.");
    _ ← print (u "   Must be lowercase alphanumeric with hyphens, e.g., 'my-skill-name'");
    sys_exit 1
  else
    (* 2. Determine target directory *)
    skills_root ← find_skills_dir git_toplevel current;
    let skill_path := skills_root ++ [name] in
    (* 3. Check if directory already exists *)
    t ← get_tree;
    if Path_exists t skill_path then
      _ ← print (u "❌ Error: Skill directory already exists: "
                   ++ Path_str skill_path);
      sys_exit 1
    else
      _ ← try_except
            (_ ← on_tree (λ t, Path_mkdir t skill_path true false);
             print (u "✅ Created skill directory: " ++ Path_str skill_path))
            (λ e, _ ← print_exn (u "❌ Error creating directory: ") e;
                  sys_exit 1);
      (* 4. Create SKILL.md with rich template *)
      let title := title_case_skill_name name in
      let skill_content := format SKILL_MD_TEMPLATE name title in
      let skill_md_path := skill_path ++ [u "SKILL.md"] in
      _ ← try_except
            (_ ← on_tree (λ t, Path_write_text t skill_md_path skill_content);
             print (u "✅ Created SKILL.md with structuring guidance"))
            (λ e, _ ← print_exn (u "❌ Error creating SKILL.md: ") e;
                  sys_exit 1);
      (* 5. Create resource directories with example files *)
      _ ← (if negb simple_mode then
             try_except
               (create_resources skill_path name title)
               (λ e, _ ← print_exn (u "❌ Error creating resource directories: ") e;
                     sys_exit 1)
           else
             print (u "ℹ️  Simple mode: Skipped creating example resource directories"));
      (* 6. Print next steps *)
      print_next_steps skill_path name simple_mode.

(** One call of the script on a file system: the file system it leaves (the
    working directory does not move) and the run. *)
Definition scaffold_skill (git_toplevel : option location) (fs : filesystem)
    (name : str) (simple_mode : bool) : filesystem * run :=
  let '(t, r) :=
    execute (scaffold_skill_body git_toplevel (cwd fs) name simple_mode)
            (root fs) in
  (FS t (cwd fs), r).

(** The package path the script reports, as the string given to the
    validator. *)
Definition skill_path_of (git_toplevel : option location) (fs : filesystem)
    (name : str) : str :=
  match find_skills_dir git_toplevel (cwd fs) (World (root fs) []) with
  | (inr skills_root, _) => Path_str (skills_root ++ [name])
  | (inl _, _) => []
  end.

End Payload.

End Scaffolder.

(** * Definitions used by the statements *)

(** The rule in the words of the specification: lowercase alphanumerics and
    hyphens only, an alphanumeric first and last, at least two characters. *)
Definition legal_identifier (s : str) : bool :=
  forallb alnum_hyphen s
  && match head s with Some c => alnum c | None => false end
  && match last s with Some c => alnum c | None => false end
  && (2 <=? length s)%nat.

(** The character before the current offset once [x] has been read. *)
Definition prev_after (prev : option char) (x : str) : option char :=
  match last x with
  | Some c => Some c
  | None => prev
  end.


(** A name of a directory entry: not empty, not [.] or [..], no slash. *)
Definition proper_name (c : str) : Prop :=
  c ≠ [] ∧ c ≠ dot ∧ c ≠ dotdot ∧ sep ∉ c.

(** ** A sample tree

    [/work] holds the packages the examples below are run on, [/other] a
    second package named [my-skill]; the working directory is [/work]. *)

Definition dir (entries : list (string * node)) : node :=
  Dir (list_to_map (List.map (λ e, (u (fst e), snd e)) entries)).

Definition text_file (s : str) : node := File (Text s) false.

Definition sample_root : node :=
  dir [("work"%string, dir [
         ("my-skill"%string, dir [
            ("SKILL.md"%string, text_file (u "---
name: other-name
description: Fills in forms.
---
"))]);
         ("valid-skill"%string, dir [
            ("SKILL.md"%string, text_file (u "---
name: valid-skill
description: Fills in forms.
---
"))]);
         ("empty-pkg"%string, dir []);
         ("Bad_Name"%string, dir []);
         ("binary-doc"%string, dir [
            ("SKILL.md"%string, File Undecodable false)]);
         ("Broken"%string, dir [
            ("SKILL.md"%string, File Undecodable false)])]);
       ("other"%string, dir [
         ("my-skill"%string, dir [
            ("SKILL.md"%string, text_file (u "name: other-name
"))])])].

Definition sample_fs : filesystem := FS sample_root [u "work"].

(** A project with a skills directory, [/repo/.github/skills], seen from
    [/repo]. *)
Definition project_fs : filesystem :=
  FS (dir [("repo"%string, dir [
             (".github"%string, dir [("skills"%string, dir [])])])])
     [u "repo"].

(** The package at [sp] is in place in the tree [t]: every place down to
    [sp] is a directory and [sp/SKILL.md] is a file holding [content]. *)
Definition has_entry_document (sp : location) (content : str) (t : node)
  : Prop :=
  (∀ q, q `prefix_of` sp → is_dir_node (walk t q) = true)
  ∧ ∃ x, walk t (sp ++ [Validator.SKILL_MD]) = Some (File (Text content) x).

(** A script that keeps a property of the tree, however it ends. *)
Definition preserves (P : node → Prop) {A} (m : proc A) : Prop :=
  ∀ w r w', m w = (r, w') → P (tree w) → P (tree w').

(** The first line of a text, and what follows it. *)
Fixpoint first_line (s : str) : str :=
  match s with
  | [] => []
  | c :: s' => if c =? LF then [] else c :: first_line s'
  end.

Fixpoint next_lines (s : str) : str :=
  match s with
  | [] => []
  | c :: s' => if c =? LF then s' else next_lines s'
  end.

(** A working directory named [.github] that holds no [skills] yet. *)
Definition inside_github_fs : filesystem :=
  FS (dir [("repo"%string, dir [(".github"%string, dir [])])])
     [u "repo"; u ".github"].

(** A package whose entry document holds prose and no field. *)
Definition prose_fs : filesystem :=
  FS (dir [("notes"%string, dir [
             ("SKILL.md"%string, text_file (u "# Notes
Nothing declared here.
"))])])
     [].

(** Lower-casing a title and putting hyphens back for its spaces. *)
Definition untitle (c : char) : char := if c =? space then hyphen else lower c.

(** Two places neither of which is above the other. *)
Definition beside (p q : location) : Prop :=
  ¬ p `prefix_of` q ∧ ¬ q `prefix_of` p.






(** The list [errors] of [validate_skill] (lines 9 to 34) as it stands when
    the run ends: at the final report, or at the read of line 25 when that
    raises. *)
Definition recorded_errors (fs : filesystem) (path : str) : list str :=
  let skill_dir := Validator.skill_dir_of path in
  let skill_md_path := path_join path Validator.SKILL_MD in
  let errors := [] in
  let errors :=
    if negb (name_rule skill_dir)
    then errors ++ [Validator.NAMING_VIOLATION] else errors in
  let errors :=
    if negb (os_path_exists fs skill_md_path)
    then errors ++ [Validator.MISSING_SKILL_MD] else errors in
  if os_path_exists fs skill_md_path then
    match read_text fs skill_md_path with
    | inl _ => errors
    | inr content => errors ++ Validator.metadata_errors skill_dir content
    end
  else errors.

(** The three operations of the scaffolder on one path. *)
Inductive tree_op :=
| Mkdir (parents exist_ok : bool)
| WriteText (s : str)
| Chmod755.

Definition run_op (o : tree_op) (t : node) (p : location) : exn + node :=
  match o with
  | Mkdir parents exist_ok => Path_mkdir t p parents exist_ok
  | WriteText s => Path_write_text t p s
  | Chmod755 => Path_chmod_755 t p
  end.

(** * Properties *)

(** Literals are computed by [vm_compute] where their characters matter. *)
Opaque u.

(** ** The naming rule *)

Lemma prev_after_cons prev c x :
  prev_after (Some c) x = prev_after prev (c :: x).
Proof.
  unfold prev_after. destruct x as [|d x]; [done|].
  rewrite last_cons_cons. destruct (last (d :: x)) eqn:E; [done|].
  by apply last_None in E.
Qed.

(** A repetition succeeds exactly when the text splits into characters of the
    class and a remainder on which the rest of the pattern succeeds. *)
Lemma greedy_is_Some p k pos prev rest mk :
  is_Some (greedy p k pos prev rest mk) ↔
  ∃ x y, rest = x ++ y ∧ forallb p x = true
         ∧ is_Some (k (pos + length x)%nat (prev_after prev x) y mk).
Proof.
  revert pos prev. induction rest as [|c r IH]; intros pos prev; simpl.
  - split.
    + intros H. exists [], []. simpl. by rewrite Nat.add_0_r.
    + intros (x & y & E & _ & H). symmetry in E.
      apply app_eq_nil in E as [-> ->]. simpl in H. by rewrite Nat.add_0_r in H.
  - destruct (p c) eqn:Hp.
    + split.
      * intros H.
        destruct (greedy p k (S pos) (Some c) r mk) eqn:G.
        -- destruct (proj1 (IH (S pos) (Some c))) as (x & y & -> & Hx & Hk).
           { by rewrite G. }
           exists (c :: x), y. simpl. rewrite Hp, Hx.
           rewrite <- prev_after_cons, Nat.add_succ_r. done.
        -- exists [], (c :: r). simpl. by rewrite Nat.add_0_r.
      * intros ([|d x] & y & E & Hx & Hk); simpl in *.
        -- subst y. rewrite Nat.add_0_r in Hk.
           destruct (greedy p k (S pos) (Some c) r mk); [by eexists | done].
        -- injection E as <- ->. apply andb_prop in Hx as [_ Hx].
           destruct (proj2 (IH (S pos) (Some c))) as [res ->]; [|by eexists].
           exists x, y. rewrite (prev_after_cons prev), Nat.add_succ_r in *.
           done.
    + split.
      * intros H. exists [], (c :: r). simpl. by rewrite Nat.add_0_r.
      * intros ([|d x] & y & E & Hx & Hk); simpl in *.
        -- subst y. by rewrite Nat.add_0_r in Hk.
        -- injection E as <- ->. by rewrite Hp in Hx.
Qed.

(** A repetition that can take all of [x], and no more, and after which the
    rest of the pattern succeeds, gives that match. *)
Lemma greedy_longest p k pos prev x y mk r :
  forallb p x = true →
  match y with c :: _ => p c = false | [] => True end →
  k (pos + length x)%nat (prev_after prev x) y mk = Some r →
  greedy p k pos prev (x ++ y) mk = Some r.
Proof.
  revert pos prev. induction x as [|c x IH]; intros pos prev Hx Hy Hk; simpl in *.
  - rewrite Nat.add_0_r in Hk. destruct y as [|c y]; simpl; [done|].
    by rewrite Hy.
  - apply andb_prop in Hx as [-> Hx].
    rewrite <- (prev_after_cons prev), Nat.add_succ_r in Hk.
    by rewrite (IH (S pos) (Some c)).
Qed.

Lemma alnum_alnum_hyphen c : alnum c = true → alnum_hyphen c = true.
Proof. unfold alnum_hyphen. by intros ->. Qed.

Lemma legal_identifier_shape s :
  legal_identifier s = true ↔
  ∃ c x d, s = c :: x ++ [d] ∧ alnum c = true
           ∧ forallb alnum_hyphen x = true ∧ alnum d = true.
Proof.
  unfold legal_identifier. rewrite !andb_true_iff. split.
  - intros [[[Hall Hh] Hl] Hlen]. apply Nat.leb_le in Hlen.
    destruct s as [|c s]; [done|]. simpl in Hh, Hlen.
    destruct s as [|e s _] using rev_ind; [simpl in Hlen; lia|].
    exists c, s, e. rewrite app_comm_cons, last_snoc in Hl.
    simpl in Hall. apply andb_prop in Hall as [_ Hall].
    rewrite forallb_app in Hall. apply andb_prop in Hall as [Hall _].
    done.
  - intros (c & x & d & -> & Hc & Hx & Hd).
    rewrite app_comm_cons, last_snoc. simpl.
    rewrite forallb_app, Hx, Hc, Hd, !alnum_alnum_hyphen by done. simpl.
    repeat split; [by rewrite alnum_alnum_hyphen | by destruct x].
Qed.

Lemma name_rule_shape s :
  name_rule s = true ↔
  ∃ c x d z, s = c :: x ++ d :: z ∧ alnum c = true
             ∧ forallb alnum_hyphen x = true ∧ alnum d = true
             ∧ (z = [] ∨ z = [LF]).
Proof.
  unfold name_rule, re_match, NAME_PATTERN.
  rewrite bool_decide_eq_true. simpl. unfold one at 1.
  destruct s as [|c s].
  { split; [by intros [? ?]|]. by intros (? & ? & ? & ? & ? & _). }
  destruct (alnum c) eqn:Hc.
  - rewrite greedy_is_Some. split.
    + intros (x & y & -> & Hx & Hk). unfold one in Hk.
      destruct y as [|d z]; [by destruct Hk|].
      destruct (alnum d) eqn:Hd; [|by destruct Hk].
      exists c, x, d, z. repeat split; try done.
      destruct z as [|e z]; [by left|]. simpl in Hk.
      destruct (N.eqb_spec e LF) as [->|]; [|by destruct Hk].
      destruct z; [by right | by destruct Hk].
    + intros (c' & x & d & z & E & _ & Hx & Hd & Hz). injection E as <- ->.
      exists x, (d :: z). repeat split; try done. unfold one. rewrite Hd.
      by destruct Hz as [-> | ->].
  - split; [by intros [? ?]|].
    intros (c' & x & d & z & E & Hc' & _). injection E as <- ->. congruence.
Qed.

(** X1.  What the check of lines 15 and 351 accepts: the legal identifiers, and
    the legal identifiers followed by one newline. *)
Theorem name_rule_spec s :
  name_rule s = true ↔
  legal_identifier s = true ∨ ∃ s', s = s' ++ [LF] ∧ legal_identifier s' = true.
Proof.
  rewrite name_rule_shape. split.
  - intros (c & x & d & z & -> & Hc & Hx & Hd & [-> | ->]).
    + left. apply legal_identifier_shape. by exists c, x, d.
    + right. exists (c :: x ++ [d]). split.
      * simpl. by rewrite <- app_assoc.
      * apply legal_identifier_shape. by exists c, x, d.
  - intros [H | (s' & -> & H)];
      apply legal_identifier_shape in H as (c & x & d & -> & Hc & Hx & Hd).
    + exists c, x, d, []. repeat split; auto.
    + exists c, x, d, [LF]. simpl. rewrite <- app_assoc. repeat split; auto.
Qed.

(** The examples of the specification. *)
Example name_rule_examples :
  name_rule (u "my-skill") = true ∧ name_rule (u "My-Skill") = false
  ∧ name_rule (u "-abc") = false ∧ name_rule (u "a") = false.
Proof. by vm_compute. Qed.

Lemma name_rule_single_char c : name_rule [c] = false.
Proof.
  apply not_true_is_false. rewrite name_rule_shape.
  intros (c' & x & d & z & E & _). injection E as _ E.
  by destruct x.
Qed.

(** ** The validator *)

Section ValidatorFacts.
Import Validator.

Lemma read_text_exists fs p content :
  read_text fs p = inr content → os_path_exists fs p = true.
Proof.
  unfold read_text, os_path_exists. intros H.
  destruct (stat fs p); [|done]. by apply bool_decide_eq_true.
Qed.

Lemma critical_findings fs path errors :
  critical fs path = Some errors ↔
  ∃ warnings, findings fs path = inr (errors, warnings).
Proof.
  unfold critical. destruct (findings fs path) as [e | [es ws]]; split.
  - done.
  - by intros [? ?].
  - intros [= ->]. by exists ws.
  - by intros [? [= -> _]].
Qed.

(** Without an entry document the metadata checks are not run. *)
Lemma findings_missing fs path :
  os_path_exists fs (path_join path SKILL_MD) = false →
  findings fs path =
    inr ((if name_rule (skill_dir_of path) then [] else [NAMING_VIOLATION])
           ++ [MISSING_SKILL_MD],
         advisories fs path).
Proof.
  intros H. unfold findings. rewrite H. simpl.
  by destruct (name_rule (skill_dir_of path)).
Qed.

(** With an entry document that can be read they are. *)
Lemma findings_readable fs path content :
  read_text fs (path_join path SKILL_MD) = inr content →
  findings fs path =
    inr ((if name_rule (skill_dir_of path) then [] else [NAMING_VIOLATION])
           ++ metadata_errors (skill_dir_of path) content,
         advisories fs path).
Proof.
  intros H. unfold findings. rewrite (read_text_exists _ _ _ H), H. simpl.
  by destruct (name_rule (skill_dir_of path)).
Qed.

(** An entry document that cannot be read ends the run. *)
Lemma findings_unreadable fs path e :
  read_text fs (path_join path SKILL_MD) = inl e →
  os_path_exists fs (path_join path SKILL_MD) = true →
  findings fs path = inl e.
Proof. intros H Hex. unfold findings. by rewrite Hex, H. Qed.

Lemma error_lines_printed fs path errors warnings :
  findings fs path = inr (errors, warnings) →
  ∀ e, e ∈ errors → Line (u "  ❌ " ++ e) ∈ stdout (validate_skill fs path).
Proof.
  intros H e He. unfold validate_skill. rewrite H.
  destruct errors as [|e0 errors]; [by apply elem_of_nil in He|].
  simpl. do 2 apply list_elem_of_further. apply list_elem_of_In.
  change (In (Line (u "  ❌ " ++ e))
             (List.map (λ e, Line (u "  ❌ " ++ e)) (e0 :: errors))).
  apply (in_map (λ e, Line (u "  ❌ " ++ e))). by apply list_elem_of_In.
Qed.

(** Two lines whose first three characters differ are different. *)
Ltac differ_at_start E :=
  apply (f_equal (λ l, match l with Line s | ErrLine s _ => take 3 s end)) in E;
  vm_compute in E; discriminate E.

Lemma advisory_lines_not_printed_on_fail fs path e0 errors warnings :
  findings fs path = inr (e0 :: errors, warnings) →
  ∀ w, Line (u "  ℹ️  " ++ w) ∉ stdout (validate_skill fs path).
Proof.
  intros H w. unfold validate_skill. rewrite H. simpl.
  rewrite !not_elem_of_cons. repeat split.
  - intros E. differ_at_start E.
  - intros E. differ_at_start E.
  - intros E. differ_at_start E.
  - intros Hin. apply list_elem_of_In, in_map_iff in Hin as (e & E & _).
    symmetry in E. differ_at_start E.
Qed.

Lemma advisory_lines_printed_on_pass fs path warnings :
  findings fs path = inr ([], warnings) →
  ∀ w, w ∈ warnings → Line (u "  ℹ️  " ++ w) ∈ stdout (validate_skill fs path).
Proof.
  intros H w Hw. unfold validate_skill. rewrite H.
  destruct warnings as [|w0 warnings]; [by apply elem_of_nil in Hw|].
  simpl. do 3 apply list_elem_of_further. apply list_elem_of_In.
  change (In (Line (u "  ℹ️  " ++ w))
             (List.map (λ w, Line (u "  ℹ️  " ++ w)) (w0 :: warnings))).
  apply (in_map (λ w, Line (u "  ℹ️  " ++ w))). by apply list_elem_of_In.
Qed.

Lemma exit_code_findings fs path :
  exit_code (ended (validate_skill fs path)) = 0%Z ↔
  ∃ warnings, findings fs path = inr ([], warnings).
Proof.
  unfold validate_skill.
  destruct (findings fs path) as [e | [[|e0 errors] warnings]]; simpl; split;
    try done.
  - by intros [? ?].
  - intros _. by exists warnings.
  - by intros [? ?].
Qed.

End ValidatorFacts.

(** ** Claims about the validator *)

Section ValidatorClaims.
Import Validator.

(** C6.  For an existing directory whose base name passes the naming check
    and which holds no entry document, the run reports exactly one CRITICAL
    finding, the missing entry document; no metadata finding is produced;
    the report is the FAIL report and the process ends with a non-zero
    status. *)
Theorem missing_entry_document fs path :
  os_path_isdir fs path = true →
  name_rule (skill_dir_of path) = true →
  os_path_exists fs (path_join path SKILL_MD) = false →
  critical fs path = Some [MISSING_SKILL_MD]
  ∧ validate_skill fs path =
      Run [Line (u "Validating skill: " ++ skill_dir_of path ++ u "...");
           Line (LF :: u "[FAIL] Critical Violations:");
           Line (u "  ❌ " ++ MISSING_SKILL_MD)]
          (Exited 1)
  ∧ exit_code (ended (validate_skill fs path)) ≠ 0%Z.
Proof.
  intros _ Hname Hmissing.
  pose proof (findings_missing fs path Hmissing) as H. rewrite Hname in H.
  unfold critical, validate_skill. rewrite H. by simpl.
Qed.

Lemma missing_entry_document_witness :
  critical sample_fs (u "empty-pkg") = Some [MISSING_SKILL_MD]
  ∧ validate_skill sample_fs (u "empty-pkg") =
      Run [Line (u "Validating skill: " ++ skill_dir_of (u "empty-pkg")
                   ++ u "...");
           Line (LF :: u "[FAIL] Critical Violations:");
           Line (u "  ❌ " ++ MISSING_SKILL_MD)]
          (Exited 1)
  ∧ exit_code (ended (validate_skill sample_fs (u "empty-pkg"))) ≠ 0%Z.
Proof.
  apply (missing_entry_document sample_fs (u "empty-pkg"));
    vm_compute; reflexivity.
Defined.

(** C8, as the code has it.  For a package whose directory is named
    [my-skill] and whose entry document declares the name [other-name], the
    first CRITICAL finding is the mismatch, and its message holds both
    names; it is the only CRITICAL finding when the document also has a
    description line, and is followed by the missing-description finding
    when it has none. *)
Theorem name_mismatch_reported fs path content :
  skill_dir_of path = u "my-skill" →
  read_text fs (path_join path SKILL_MD) = inr content →
  declared_name content = Some (u "other-name") →
  critical fs path =
    Some (name_mismatch (u "other-name") (u "my-skill")
            :: (if has_description content then [] else [MISSING_DESCRIPTION]))
  ∧ contains (name_mismatch (u "other-name") (u "my-skill")) (u "other-name")
    = true
  ∧ contains (name_mismatch (u "other-name") (u "my-skill")) (u "my-skill")
    = true.
Proof.
  intros Hdir Hread Hname. split; [|by vm_compute].
  unfold critical. rewrite (findings_readable _ _ _ Hread), Hdir.
  replace (name_rule (u "my-skill")) with true by by vm_compute.
  unfold metadata_errors. rewrite Hname.
  replace (str_eqb (u "other-name") (u "my-skill")) with false
    by by vm_compute.
  by destruct (has_description content).
Qed.

Lemma name_mismatch_reported_witness :
  critical sample_fs (u "my-skill") =
    Some [name_mismatch (u "other-name") (u "my-skill")]
  ∧ contains (name_mismatch (u "other-name") (u "my-skill")) (u "other-name")
    = true
  ∧ contains (name_mismatch (u "other-name") (u "my-skill")) (u "my-skill")
    = true.
Proof.
  apply (name_mismatch_reported sample_fs (u "my-skill") (u "---
name: other-name
description: Fills in forms.
---
")); vm_compute; reflexivity.
Defined.

(** C8, as stated, fails: a package named [my-skill] whose entry document
    declares [other-name] and has no description line gets two CRITICAL
    findings. *)
Lemma name_mismatch_not_alone :
  skill_dir_of (u "/other/my-skill") = u "my-skill"
  ∧ read_text sample_fs (path_join (u "/other/my-skill") SKILL_MD)
    = inr (u "name: other-name
")
  ∧ declared_name (u "name: other-name
") = Some (u "other-name")
  ∧ critical sample_fs (u "/other/my-skill") =
      Some [name_mismatch (u "other-name") (u "my-skill"); MISSING_DESCRIPTION].
Proof. by vm_compute. Qed.

(** At the report the list of the run is the CRITICAL list. *)
Lemma recorded_errors_findings fs path errors warnings :
  findings fs path = inr (errors, warnings) →
  recorded_errors fs path = errors.
Proof.
  unfold findings, recorded_errors.
  destruct (os_path_exists fs (path_join path SKILL_MD)); cbn [negb].
  - destruct (read_text fs (path_join path SKILL_MD)); [done|].
    by intros [= <- _].
  - by intros [= <- _].
Qed.

(** C9, as the code has it.  When the entry document is absent or can be
    read as text, the run reaches its report with the CRITICAL list it has
    recorded, and: the process ends with status 0 exactly when that list is
    empty, whatever the ADVISORY list holds; every CRITICAL finding is
    printed; when the list is empty the run returns and every ADVISORY
    finding is printed; when it is not, no ADVISORY finding is printed and
    the process ends with [sys.exit(1)]; a package with a legal name, a
    matching name field and a description, and with neither [references/]
    nor [scripts/], has an empty CRITICAL list and exactly the two ADVISORY
    findings. *)
Theorem exit_status_and_report fs path :
  (os_path_exists fs (path_join path SKILL_MD) = false
   ∨ ∃ content, read_text fs (path_join path SKILL_MD) = inr content) →
  ∃ errors warnings,
    findings fs path = inr (errors, warnings)
    ∧ recorded_errors fs path = errors
    ∧ (exit_code (ended (validate_skill fs path)) = 0%Z ↔ errors = [])
    ∧ (∀ e, e ∈ errors →
            Line (u "  ❌ " ++ e) ∈ stdout (validate_skill fs path))
    ∧ (errors = [] →
       ended (validate_skill fs path) = Returned
       ∧ ∀ w, w ∈ warnings →
              Line (u "  ℹ️  " ++ w) ∈ stdout (validate_skill fs path))
    ∧ (errors ≠ [] →
       (∀ w, Line (u "  ℹ️  " ++ w) ∉ stdout (validate_skill fs path))
       ∧ ended (validate_skill fs path) = Exited 1)
    ∧ (∀ content,
         name_rule (skill_dir_of path) = true →
         read_text fs (path_join path SKILL_MD) = inr content →
         declared_name content = Some (skill_dir_of path) →
         has_description content = true →
         os_path_isdir fs (path_join path (u "references")) = false →
         os_path_isdir fs (path_join path (u "scripts")) = false →
         errors = [] ∧ warnings = [NO_REFERENCES; NO_SCRIPTS]).
Proof.
  intros Hdoc.
  assert (∃ errors, findings fs path = inr (errors, advisories fs path))
    as [errors H].
  { destruct Hdoc as [Hmissing | [content Hread]].
    - rewrite (findings_missing _ _ Hmissing). by eexists.
    - rewrite (findings_readable _ _ _ Hread). by eexists. }
  exists errors, (advisories fs path). split_and!.
  - done.
  - by apply (recorded_errors_findings _ _ _ _ H).
  - rewrite exit_code_findings, H. split.
    + by intros [ws [= ->]].
    + intros ->. by eexists.
  - by apply (error_lines_printed _ _ _ (advisories fs path)).
  - intros ->. split.
    + unfold validate_skill. by rewrite H.
    + by apply advisory_lines_printed_on_pass.
  - destruct errors as [|e0 errors]; [done|]. intros _. split.
    + by apply (advisory_lines_not_printed_on_fail _ _ e0 errors
                  (advisories fs path)).
    + unfold validate_skill. by rewrite H.
  - intros content Hname Hread Hdecl Hdesc Hrefs Hscripts.
    rewrite (findings_readable _ _ _ Hread), Hname in H.
    injection H as <-. unfold metadata_errors, advisories, str_eqb.
    by rewrite Hdecl, Hdesc, Hrefs, Hscripts, bool_decide_eq_true_2.
Qed.

Lemma exit_status_and_report_witness :
  findings sample_fs (u "valid-skill") = inr ([], [NO_REFERENCES; NO_SCRIPTS])
  ∧ ended (validate_skill sample_fs (u "valid-skill")) = Returned
  ∧ exit_code (ended (validate_skill sample_fs (u "valid-skill"))) = 0%Z.
Proof.
  destruct (exit_status_and_report sample_fs (u "valid-skill"))
    as (errors & warnings & Hf & _ & Hexit & _ & Hpass & _ & Hexample).
  - right. exists (u "---
name: valid-skill
description: Fills in forms.
---
"). vm_compute. reflexivity.
  - destruct (Hexample (u "---
name: valid-skill
description: Fills in forms.
---
")) as [-> ->]; try (vm_compute; reflexivity).
    split_and!; [exact Hf | by apply Hpass | by apply Hexit].
Defined.

(** C9, as stated, fails on a run that the read of line 25 ends.  For the
    package [binary-doc] the list is empty when the run ends, and the
    process ends with status 1; for the directory [Broken] the list holds
    the naming finding, which is not printed. *)
Lemma exit_status_without_report :
  recorded_errors sample_fs (u "binary-doc") = []
  ∧ exit_code (ended (validate_skill sample_fs (u "binary-doc"))) = 1%Z
  ∧ recorded_errors sample_fs (u "Broken") = [NAMING_VIOLATION]
  ∧ Line (u "  ❌ " ++ NAMING_VIOLATION)
    ∉ stdout (validate_skill sample_fs (u "Broken")).
Proof.
  split_and!; try by vm_compute.
  assert (stdout (validate_skill sample_fs (u "Broken"))
          = [Line (u "Validating skill: Broken...")]) as ->
    by (vm_compute; reflexivity).
  rewrite not_elem_of_cons. split; [|apply not_elem_of_nil].
  intros E.
  apply (f_equal (λ l, match l with Line s | ErrLine s _ => take 3 s end))
    in E.
  vm_compute in E. discriminate E.
Qed.

(** C3, as the code has it.  When the entry document exists and its bytes
    cannot be decoded as text, the run prints its first line and ends with
    the decoding error, which nothing catches: no finding is reported and the
    process ends with status 1. *)
Theorem undecodable_entry_document fs path x :
  stat fs (path_join path SKILL_MD) = Some (File Undecodable x) →
  validate_skill fs path =
    Run [Line (u "Validating skill: " ++ skill_dir_of path ++ u "...")]
        (Uncaught UnicodeDecodeError)
  ∧ critical fs path = None
  ∧ exit_code (ended (validate_skill fs path)) = 1%Z.
Proof.
  intros H.
  assert (findings fs path = inl UnicodeDecodeError) as F.
  { apply findings_unreadable.
    - unfold read_text. by rewrite H.
    - unfold os_path_exists. rewrite H. by apply bool_decide_eq_true. }
  unfold critical, validate_skill. by rewrite F.
Qed.

Lemma undecodable_entry_document_witness :
  validate_skill sample_fs (u "binary-doc") =
    Run [Line (u "Validating skill: " ++ skill_dir_of (u "binary-doc")
                 ++ u "...")]
        (Uncaught UnicodeDecodeError)
  ∧ critical sample_fs (u "binary-doc") = None
  ∧ exit_code (ended (validate_skill sample_fs (u "binary-doc"))) = 1%Z.
Proof.
  apply (undecodable_entry_document sample_fs (u "binary-doc") false).
  vm_compute. reflexivity.
Defined.

(** C3, as stated, fails: for the package [binary-doc], whose entry document
    exists and cannot be decoded, the run has no report, so no CRITICAL
    finding either: it ends with the decoding error. *)
Lemma undecodable_not_surfaced :
  os_path_exists sample_fs (path_join (u "binary-doc") SKILL_MD) = true
  ∧ read_text sample_fs (path_join (u "binary-doc") SKILL_MD)
    = inl UnicodeDecodeError
  ∧ ¬ (∃ errors, critical sample_fs (u "binary-doc") = Some errors)
  ∧ ended (validate_skill sample_fs (u "binary-doc"))
    = Uncaught UnicodeDecodeError.
Proof.
  repeat split; try by vm_compute.
  intros [errors H]. revert H. by vm_compute.
Qed.

(** What the metadata checks add, finding by finding. *)
Lemma metadata_errors_spec skill_dir content :
  (declared_name content = None →
   MISSING_NAME ∈ metadata_errors skill_dir content)
  ∧ (∀ declared, declared_name content = Some declared →
       declared ≠ skill_dir →
       name_mismatch declared skill_dir ∈ metadata_errors skill_dir content)
  ∧ (has_description content = false →
     MISSING_DESCRIPTION ∈ metadata_errors skill_dir content).
Proof.
  unfold metadata_errors. repeat split.
  - intros ->. apply elem_of_app. left. apply list_elem_of_here.
  - intros declared -> Hne. apply elem_of_app. left.
    unfold str_eqb. rewrite bool_decide_eq_false_2 by done.
    apply list_elem_of_here.
  - intros ->. apply elem_of_app. right. apply list_elem_of_here.
Qed.

(** C7, as the code has it.  When the derived identifier fails the naming
    check and the entry document is absent or can be read as text, the run
    reaches its report: the naming finding comes first, the missing entry
    document or each metadata violation of the document follows, the
    advisory checks are made, every CRITICAL finding is printed and the
    process ends with status 1. *)
Theorem naming_violation_does_not_short_circuit fs path :
  name_rule (skill_dir_of path) = false →
  (os_path_exists fs (path_join path SKILL_MD) = false
   ∨ ∃ content, read_text fs (path_join path SKILL_MD) = inr content) →
  ∃ errors,
    findings fs path = inr (errors, advisories fs path)
    ∧ head errors = Some NAMING_VIOLATION
    ∧ (os_path_exists fs (path_join path SKILL_MD) = false →
       MISSING_SKILL_MD ∈ errors)
    ∧ (∀ content,
         read_text fs (path_join path SKILL_MD) = inr content →
         (declared_name content = None → MISSING_NAME ∈ errors)
         ∧ (∀ declared, declared_name content = Some declared →
              declared ≠ skill_dir_of path →
              name_mismatch declared (skill_dir_of path) ∈ errors)
         ∧ (has_description content = false → MISSING_DESCRIPTION ∈ errors))
    ∧ (∀ e, e ∈ errors →
            Line (u "  ❌ " ++ e) ∈ stdout (validate_skill fs path))
    ∧ ended (validate_skill fs path) = Exited 1.
Proof.
  intros Hname [Hmissing | [content Hread]].
  - pose proof (findings_missing fs path Hmissing) as H. rewrite Hname in H.
    eexists. split; [exact H|]. split_and!.
    + done.
    + intros _. apply list_elem_of_further, list_elem_of_here.
    + intros c Hc. apply read_text_exists in Hc. congruence.
    + by apply (error_lines_printed _ _ _ (advisories fs path)).
    + unfold validate_skill. by rewrite H.
  - pose proof (findings_readable fs path content Hread) as H.
    rewrite Hname in H. eexists. split; [exact H|].
    pose proof (metadata_errors_spec (skill_dir_of path) content)
      as (Hn & Hm & Hd).
    split_and!.
    + done.
    + intros Hex. apply read_text_exists in Hread. congruence.
    + intros c Hc. assert (c = content) as -> by congruence. split_and!.
      * intros Hnone. by apply list_elem_of_further, Hn.
      * intros declared Hdecl Hne. by apply list_elem_of_further, Hm.
      * intros Hnone. by apply list_elem_of_further, Hd.
    + by apply (error_lines_printed _ _ _ (advisories fs path)).
    + unfold validate_skill. by rewrite H.
Qed.

(** The example of the claim: an illegally named directory without an entry
    document yields the naming finding and the missing-document finding. *)
Lemma naming_violation_does_not_short_circuit_witness :
  ∃ errors,
    findings sample_fs (u "Bad_Name")
    = inr (errors, advisories sample_fs (u "Bad_Name"))
    ∧ head errors = Some NAMING_VIOLATION
    ∧ MISSING_SKILL_MD ∈ errors
    ∧ ended (validate_skill sample_fs (u "Bad_Name")) = Exited 1.
Proof.
  destruct (naming_violation_does_not_short_circuit sample_fs (u "Bad_Name"))
    as (errors & H & Hhead & Hmiss & _ & _ & Hend).
  - vm_compute. reflexivity.
  - left. vm_compute. reflexivity.
  - exists errors. split_and!; try done. apply Hmiss. vm_compute. reflexivity.
Defined.

(** C7, as stated, fails: the directory [Broken] has an illegal name and an
    entry document that cannot be decoded; the run ends at the read, and the
    naming finding is reported nowhere. *)
Lemma naming_violation_lost_on_crash :
  name_rule (skill_dir_of (u "Broken")) = false
  ∧ critical sample_fs (u "Broken") = None
  ∧ validate_skill sample_fs (u "Broken") =
      Run [Line (u "Validating skill: Broken...")]
          (Uncaught UnicodeDecodeError).
Proof. by vm_compute. Qed.

End ValidatorClaims.

(** ** The scaffolder *)

Section ScaffolderFacts.
Import Scaffolder.

Variables EXAMPLE_SCRIPT_TEMPLATE EXAMPLE_REFERENCE_TEMPLATE : template.
Variable ASSETS_README_TEMPLATE : str.

Abbreviation scaffold :=
  (scaffold_skill EXAMPLE_SCRIPT_TEMPLATE EXAMPLE_REFERENCE_TEMPLATE
                  ASSETS_README_TEMPLATE).

Lemma bind_run {A B} (m : proc A) (f : A → proc B) w :
  (m ≫= f) w = match m w with
               | (inr a, w') => f a w'
               | (inl e, w') => (inl e, w')
               end.
Proof. reflexivity. Qed.

(** The search for the skills directory only looks at the tree: it returns a
    place, leaves the tree as it is and prints at most its warning. *)
Lemma find_skills_dir_pure git current w :
  ∃ skills_root extra,
    find_skills_dir git current w
    = (inr skills_root, World (tree w) (printed w ++ extra)).
Proof.
  unfold find_skills_dir, mbind, proc_bind, get_tree, mret, proc_ret, print.
  destruct w as [t out]. cbv beta. cbn [tree printed].
  destruct (match git with
            | Some git_root =>
                if Path_exists t (git_root ++ SKILLS)
                then Some (git_root ++ SKILLS) else None
            | None => None
            end) as [d|].
  - exists d, []. by rewrite app_nil_r.
  - destruct (List.find _ _) as [p|].
    + exists (p ++ SKILLS), []. by rewrite app_nil_r.
    + by eexists current, [_].
Qed.

(** C4.  A name that fails the naming check makes the script print the
    naming error and end with status 1 at once: the file system it leaves is
    the one it found. *)
Theorem illegal_name_no_mutation git fs name simple_mode :
  name_rule name = false →
  scaffold git fs name simple_mode =
    (fs,
     Run [Line (u "❌ Error: Name '" ++ name
                  ++ u "' violates naming constraints.");
          Line (u "   Must be lowercase alphanumeric with hyphens, e.g., 'my-skill-name'")]
         (Exited 1)).
Proof.
  intros H. unfold scaffold_skill, execute, scaffold_skill_body.
  rewrite H. by destruct fs.
Qed.

(** With a legal name and an occupied target the script stops at line 363,
    the tree untouched. *)
Lemma scaffold_body_existing git current name simple_mode w skills_root w1 :
  name_rule name = true →
  find_skills_dir git current w = (inr skills_root, w1) →
  Path_exists (tree w) (skills_root ++ [name]) = true →
  scaffold_skill_body EXAMPLE_SCRIPT_TEMPLATE EXAMPLE_REFERENCE_TEMPLATE
                      ASSETS_README_TEMPLATE git current name simple_mode w
  = (inl (SystemExit 1),
     World (tree w)
           (printed w1
            ++ [Line (u "❌ Error: Skill directory already exists: "
                        ++ Path_str (skills_root ++ [name]))])).
Proof.
  intros Hname Hfind Hex.
  destruct (find_skills_dir_pure git current w) as (r & extra & E).
  rewrite E in Hfind. injection Hfind as -> <-.
  unfold scaffold_skill_body. rewrite Hname.
  cbn [negb]. rewrite bind_run, E, bind_run. unfold get_tree at 1.
  cbn [tree]. by rewrite Hex.
Qed.

(** C5.  When the naming check passes and the target path
    [skills_root / name] already exists, the script prints the already-exists
    error after whatever the search for the skills directory printed, and
    ends with status 1 before any creation step: the file system it leaves is
    the one it found. *)
Theorem existing_package_not_overwritten git fs name simple_mode
    skills_root w :
  name_rule name = true →
  find_skills_dir git (cwd fs) (World (root fs) []) = (inr skills_root, w) →
  Path_exists (root fs) (skills_root ++ [name]) = true →
  scaffold git fs name simple_mode =
    (fs,
     Run (printed w
          ++ [Line (u "❌ Error: Skill directory already exists: "
                      ++ Path_str (skills_root ++ [name]))])
         (Exited 1)).
Proof.
  intros Hname Hfind Hex. unfold scaffold_skill, execute.
  rewrite (scaffold_body_existing git (cwd fs) name simple_mode
             (World (root fs) []) skills_root w Hname Hfind Hex).
  cbn [tree printed]. by destruct fs.
Qed.

End ScaffolderFacts.

Section ScaffolderWitnesses.
Import Scaffolder.

Lemma illegal_name_no_mutation_witness :
  scaffold_skill [] [] [] None sample_fs (u "My-Skill") false =
    (sample_fs,
     Run [Line (u "❌ Error: Name '" ++ u "My-Skill"
                  ++ u "' violates naming constraints.");
          Line (u "   Must be lowercase alphanumeric with hyphens, e.g., 'my-skill-name'")]
         (Exited 1)).
Proof.
  apply (illegal_name_no_mutation [] [] [] None sample_fs (u "My-Skill") false).
  vm_compute. reflexivity.
Defined.

Lemma existing_package_not_overwritten_witness :
  scaffold_skill [] [] [] None sample_fs (u "my-skill") false =
    (sample_fs,
     Run ([Line (u "⚠️  Warning: Could not find .github/skills, creating in current directory.")]
          ++ [Line (u "❌ Error: Skill directory already exists: "
                      ++ Path_str ([u "work"] ++ [u "my-skill"]))])
         (Exited 1)).
Proof.
  apply (existing_package_not_overwritten [] [] [] None sample_fs
           (u "my-skill") false [u "work"]
           (World sample_root
              [Line (u "⚠️  Warning: Could not find .github/skills, creating in current directory.")]));
    vm_compute; reflexivity.
Defined.

End ScaffolderWitnesses.

(** ** Paths *)

(** A closed decidable statement, decided by evaluation. *)
Ltac by_computation :=
  match goal with
  | |- ?P => apply (bool_decide_eq_true_1 P); vm_compute; reflexivity
  end.

Lemma split_not_nil c s : split c s ≠ [].
Proof.
  destruct s as [|x s]; simpl; [done|].
  destruct (x =? c); [done|]. by destruct (split c s).
Qed.

Lemma split_cons_sep c s : split c (c :: s) = [] :: split c s.
Proof. simpl. by rewrite N.eqb_refl. Qed.

(** Splitting at a separator splits the list of components. *)
Lemma split_app_sep c a b : split c (a ++ c :: b) = split c a ++ split c b.
Proof.
  induction a as [|x a IH].
  - cbn [app]. by rewrite split_cons_sep.
  - simpl. rewrite IH. destruct (x =? c); [done|].
    pose proof (split_not_nil c a). by destruct (split c a).
Qed.

Lemma split_replicate_app c k s :
  split c (replicate k c ++ s) = replicate k [] ++ split c s.
Proof.
  induction k as [|k IH]; [done|].
  cbn [replicate app]. by rewrite split_cons_sep, IH.
Qed.

Lemma split_app_replicate c a k :
  split c (a ++ replicate k c) = split c a ++ replicate k [].
Proof.
  destruct k as [|k]; [by rewrite !app_nil_r|].
  cbn [replicate]. rewrite split_app_sep.
  rewrite <- (app_nil_r (replicate k c)), split_replicate_app. simpl.
  by rewrite <- replicate_cons_app.
Qed.

Lemma split_no_sep c s : c ∉ s → split c s = [s].
Proof.
  induction s as [|x s IH]; [done|].
  intros H. apply not_elem_of_cons in H as [Hx Hs]. simpl.
  destruct (N.eqb_spec x c) as [->|_]; [done|]. by rewrite IH.
Qed.

(** The last component does not depend on leading slashes. *)
Lemma basename_replicate i s : basename (replicate i sep ++ s) = basename s.
Proof.
  unfold basename. rewrite split_replicate_app.
  induction i as [|i IH]; [done|].
  cbn [replicate app]. rewrite <- IH.
  pose proof (split_not_nil sep s) as Hne.
  destruct (replicate i [] ++ split sep s) eqn:E; [|done].
  by apply app_eq_nil in E as [_ ?].
Qed.

Lemma normpath_step_nil i acc : normpath_step i acc [] = acc.
Proof. done. Qed.

Lemma foldl_normpath_step_nils i acc k :
  foldl (normpath_step i) acc (replicate k []) = acc.
Proof. induction k as [|k IH]; [done|]. simpl. by rewrite normpath_step_nil. Qed.

(** The loop of [normpath] only asks whether there are leading slashes. *)
Lemma foldl_normpath_step_slashes i j acc comps :
  (i =? 0)%nat = (j =? 0)%nat →
  foldl (normpath_step i) acc comps = foldl (normpath_step j) acc comps.
Proof.
  intros H. revert acc. induction comps as [|c comps IH]; intros acc; [done|].
  simpl. rewrite IH. f_equal. unfold normpath_step. by rewrite H.
Qed.

Lemma initial_slashes_of_zero p :
  (initial_slashes_of p =? 0)%nat = negb (startswith p [sep]).
Proof.
  unfold initial_slashes_of. destruct (startswith p [sep]); [|done].
  by destruct (_ && _).
Qed.

Lemma startswith_app_nonempty p q pre :
  (length pre ≤ length p)%nat → startswith (p ++ q) pre = startswith p pre.
Proof. intros H. unfold startswith. by rewrite take_app_le. Qed.

(** Trailing slashes do not change the name line 7 derives from a path that
    is not empty. *)
Lemma skill_dir_of_trailing_slashes path k :
  path ≠ [] →
  Validator.skill_dir_of (path ++ replicate k sep) = Validator.skill_dir_of path.
Proof.
  intros Hne. unfold Validator.skill_dir_of, normpath, str_eqb.
  rewrite (bool_decide_eq_false_2 (path ++ replicate k sep = []))
    by by destruct path.
  rewrite (bool_decide_eq_false_2 (path = [])) by done.
  rewrite split_app_replicate, foldl_app, foldl_normpath_step_nils.
  set (i' := initial_slashes_of (path ++ replicate k sep)).
  set (i := initial_slashes_of path).
  assert ((i' =? 0)%nat = (i =? 0)%nat) as Hi.
  { unfold i', i. rewrite !initial_slashes_of_zero.
    rewrite startswith_app_nonempty; [done|]. destruct path; [done|]. simpl. lia. }
  rewrite (foldl_normpath_step_slashes i' i) by done.
  set (J := join [sep] _).
  destruct i as [|i], i' as [|i']; try done.
  rewrite !bool_decide_eq_false_2 by done.
  by rewrite !basename_replicate.
Qed.

(** An empty component only asks again what the next component asks. *)
Lemma step_nil_then t cur c : step t (step t cur []) c = step t cur c.
Proof.
  destruct cur as [l|]; [|done]. simpl.
  destruct (is_dir_node (walk t l)) eqn:E; [|done]. simpl. by rewrite E.
Qed.

Lemma step_nils_then t cur k c :
  step t (foldl (step t) cur (replicate k [])) c = step t cur c.
Proof.
  revert cur. induction k as [|k IH]; intros cur; [done|].
  simpl. by rewrite IH, step_nil_then.
Qed.

Lemma locate_cons fs c s :
  locate fs (c :: s)
  = foldl (step (root fs)) (Some (if c =? sep then [] else cwd fs))
          (split sep (c :: s)).
Proof.
  unfold locate, startswith, str_eqb. rewrite bool_decide_eq_false_2 by done.
  simpl take. rewrite take_0. destruct (N.eqb_spec c sep) as [->|Hc].
  - by rewrite bool_decide_eq_true_2.
  - rewrite bool_decide_eq_false_2; [done|]. by intros [=].
Qed.

(** Several slashes in front of the last component count as one. *)
Lemma locate_slashes fs a j x :
  sep ∉ x →
  locate fs (a ++ replicate (S j) sep ++ x) = locate fs (a ++ sep :: x).
Proof.
  intros Hx.
  assert (∀ i, ∃ c s, a ++ replicate (S i) sep ++ x = c :: s
                      ∧ (c =? sep) = match a with
                                     | [] => true
                                     | d :: _ => d =? sep
                                     end) as Hhead.
  { intros i. destruct a as [|d a]; simpl; eauto using N.eqb_refl. }
  destruct (Hhead j) as (c & s & E & Hc).
  destruct (Hhead 0%nat) as (c0 & s0 & E0 & Hc0).
  change (a ++ replicate 1 sep ++ x) with (a ++ sep :: x) in E0.
  rewrite E, E0, !locate_cons, <- E, <- E0, Hc, Hc0.
  cbn [replicate app]. rewrite !split_app_sep, split_replicate_app.
  rewrite (split_no_sep _ x) by done.
  rewrite !foldl_app. simpl foldl. by rewrite step_nils_then.
Qed.

(** The entries the validator looks up under a path are the same with
    trailing slashes after the path. *)
Lemma stat_join_trailing_slashes fs path k x :
  path ≠ [] → x ≠ [] → sep ∉ x →
  stat fs (path_join (path ++ replicate k sep) x) = stat fs (path_join path x).
Proof.
  intros Hne Hx Hsep. unfold stat. f_equal.
  assert (startswith x [sep] = false) as Hstart.
  { destruct x as [|c x]; [done|]. unfold startswith, str_eqb. simpl.
    apply bool_decide_eq_false_2. intros [= ->]. apply Hsep, list_elem_of_here. }
  assert (∀ p, p ≠ [] → str_eqb p [] = false) as Hnil.
  { intros p Hp. by apply bool_decide_eq_false_2. }
  unfold path_join. rewrite Hstart, !Hnil by (by destruct path). simpl orb.
  destruct k as [|k]; [by rewrite app_nil_r|].
  assert (endswith_char (path ++ replicate (S k) sep) sep = true) as ->.
  { unfold endswith_char. rewrite replicate_S_end, !app_assoc, last_snoc.
    apply N.eqb_refl. }
  destruct (endswith_char path sep) eqn:Hend.
  - unfold endswith_char in Hend.
    destruct path as [|c path _] using rev_ind; [done|].
    rewrite last_snoc in Hend. apply N.eqb_eq in Hend as ->.
    rewrite <- !app_assoc.
    change ([sep] ++ replicate (S k) sep ++ x)
      with (replicate (S (S k)) sep ++ x).
    apply (locate_slashes fs path (S k) x Hsep).
  - rewrite <- app_assoc. apply (locate_slashes fs path k x Hsep).
Qed.

Section TrailingSlashes.
Import Validator.

Lemma findings_trailing_slashes fs path k :
  path ≠ [] →
  findings fs (path ++ replicate k sep) = findings fs path.
Proof.
  intros Hne.
  assert (∀ x, x ≠ [] → sep ∉ x →
               stat fs (path_join (path ++ replicate k sep) x)
               = stat fs (path_join path x)) as Hstat.
  { intros x. by apply stat_join_trailing_slashes. }
  assert (∀ s : string, u s ≠ [] → sep ∉ u s →
            os_path_isdir fs (path_join (path ++ replicate k sep) (u s))
            = os_path_isdir fs (path_join path (u s))) as Hdir.
  { intros s ? ?. unfold os_path_isdir. by rewrite Hstat. }
  unfold findings, advisories, os_path_exists, read_text.
  by rewrite skill_dir_of_trailing_slashes, !Hdir, Hstat
    by first [assumption | by_computation].
Qed.

(** C10, as the code has it.  For a path that is not empty, trailing slashes
    change neither the derived identifier nor the run. *)
Theorem trailing_separators_ignored fs path k :
  path ≠ [] →
  skill_dir_of (path ++ replicate k sep) = skill_dir_of path
  ∧ name_rule (skill_dir_of (path ++ replicate k sep))
    = name_rule (skill_dir_of path)
  ∧ validate_skill fs (path ++ replicate k sep) = validate_skill fs path.
Proof.
  intros Hne. pose proof (skill_dir_of_trailing_slashes path k Hne) as E.
  split_and!; [done | by rewrite E |].
  unfold validate_skill. by rewrite E, findings_trailing_slashes.
Qed.

Lemma trailing_separators_ignored_witness :
  skill_dir_of (u "p/my-skill" ++ replicate 1 sep) = skill_dir_of (u "p/my-skill")
  ∧ name_rule (skill_dir_of (u "p/my-skill" ++ replicate 1 sep))
    = name_rule (skill_dir_of (u "p/my-skill"))
  ∧ validate_skill sample_fs (u "p/my-skill" ++ replicate 1 sep)
    = validate_skill sample_fs (u "p/my-skill").
Proof.
  apply (trailing_separators_ignored sample_fs (u "p/my-skill") 1).
  vm_compute. discriminate.
Defined.

(** C10, as stated, fails on the empty path: its identifier is [.], and one
    slash after it makes the path the root, whose identifier is empty; the
    two runs differ from their first line on. *)
Lemma trailing_separator_after_empty_path :
  skill_dir_of [] = u "."
  ∧ skill_dir_of ([] ++ [sep]) = []
  ∧ validate_skill sample_fs ([] ++ [sep]) ≠ validate_skill sample_fs [].
Proof. split_and!; by vm_compute. Qed.

End TrailingSlashes.

(** ** The naming check and a trailing newline *)

Section TrailingNewline.
Import Validator Scaffolder.

(** C2.  The check accepts [ab] followed by a newline, which is not a legal
    identifier: [$] also matches just before a newline that ends the
    string. *)
Theorem name_rule_accepts_trailing_newline :
  name_rule (u "ab" ++ [LF]) = true
  ∧ legal_identifier (u "ab" ++ [LF]) = false.
Proof. by vm_compute. Qed.

(** C1.  For the name [ab] followed by a newline the scaffolder succeeds, in
    both modes, and the validator run on the directory it reports finds the
    name mismatch: the entry document declares [ab], the directory is named
    [ab] followed by a newline. *)
Theorem roundtrip_fails_on_trailing_newline simple_mode :
  let name := u "ab" ++ [LF] in
  let after := scaffold_skill [] [] [] None project_fs name simple_mode in
  name_rule name = true
  ∧ ended (snd after) = Returned
  ∧ skill_path_of None project_fs name = u "/repo/.github/skills/ab" ++ [LF]
  ∧ critical (fst after) (skill_path_of None project_fs name)
    = Some [name_mismatch (u "ab") name].
Proof. destruct simple_mode; by vm_compute. Qed.

End TrailingNewline.

(** ** The tree under [place] and [make_dirs] *)

Lemma walk_app t p q : walk t (p ++ q) = walk t p ≫= λ t', walk t' q.
Proof.
  revert t. induction p as [|c p IH]; intros t; [done|].
  simpl. destruct t as [|m]; [done|]. destruct (m !! c) as [t'|]; [|done].
  simpl. apply IH.
Qed.

Lemma place_cons t c p n :
  place t (c :: p) n
  = match t with
    | File _ _ => None
    | Dir m =>
        match p with
        | [] => Some (Dir (<[c := n]> m))
        | _ :: _ =>
            child ← m !! c;
            child' ← place child p n;
            Some (Dir (<[c := child']> m))
        end
    end.
Proof. done. Qed.

(** The two ways [place] succeeds below a directory. *)
Lemma place_cons_inv m c p n t' :
  place (Dir m) (c :: p) n = Some t' →
  (p = [] ∧ t' = Dir (<[c := n]> m))
  ∨ (p ≠ [] ∧ ∃ child child',
       m !! c = Some child ∧ place child p n = Some child'
       ∧ t' = Dir (<[c := child']> m)).
Proof.
  rewrite place_cons. destruct p as [|d p].
  - intros [= <-]. by left.
  - intros H. right. split; [done|].
    destruct (m !! c) as [child|]; [|done]. cbn [mbind option_bind] in H.
    destruct (place child (d :: p) n) as [child'|] eqn:E; [|done].
    cbn [mbind option_bind] in H. injection H as <-. by exists child, child'.
Qed.

(** What was placed is found where it was placed. *)
Lemma place_walk t p n t' : place t p n = Some t' → walk t' p = Some n.
Proof.
  revert t t'. induction p as [|c p IH]; intros t t' H.
  - by injection H as ->.
  - destruct t as [|m]; [done|].
    apply place_cons_inv in H as [[-> ->] | (_ & child & child' & _ & H & ->)];
      cbn [walk]; rewrite lookup_insert_eq; [done|].
    simpl. by apply (IH child).
Qed.

(** The places above it are directories. *)
Lemma place_walk_above t p n t' q :
  place t p n = Some t' → q `prefix_of` p → q ≠ p →
  is_dir_node (walk t' q) = true.
Proof.
  revert t t' q. induction p as [|c p IH]; intros t t' q H Hpre Hne.
  - by apply prefix_nil_inv in Hpre.
  - destruct t as [|m]; [done|].
    apply place_cons_inv in H
      as [[-> ->] | (Hp & child & child' & _ & H & ->)].
    + destruct q as [|d q]; [done|].
      apply prefix_cons_inv_1 in Hpre as Hd. subst d.
      apply prefix_cons_inv_2, prefix_nil_inv in Hpre as ->. done.
    + destruct q as [|d q]; [done|].
      apply prefix_cons_inv_1 in Hpre as Hd. subst d.
      apply prefix_cons_inv_2 in Hpre.
      cbn [walk]. rewrite lookup_insert_eq. simpl.
      apply (IH child); [done..|]. by intros ->.
Qed.

(** The places beside it are as they were. *)
Lemma place_walk_beside t p n t' q :
  place t p n = Some t' → ¬ p `prefix_of` q → ¬ q `prefix_of` p →
  walk t' q = walk t q.
Proof.
  revert t t' q. induction p as [|c p IH]; intros t t' q H Hpq Hqp.
  - destruct Hpq. apply prefix_nil.
  - destruct q as [|d q]; [destruct Hqp; apply prefix_nil|].
    destruct t as [|m]; [done|].
    apply place_cons_inv in H
      as [[-> ->] | (Hp & child & child' & Hc & H & ->)];
      cbn [walk]; destruct (decide (c = d)) as [<-|Hcd];
      rewrite ?lookup_insert_ne by done; try done.
    + destruct Hpq. apply prefix_cons, prefix_nil.
    + rewrite lookup_insert_eq, Hc. simpl. apply (IH child); [done|..].
      * intros Hx. apply Hpq. by apply prefix_cons.
      * intros Hx. apply Hqp. by apply prefix_cons.
Qed.

(** After [make_dirs] every place along the path is a directory. *)
Lemma make_dirs_walk t p t' q :
  make_dirs t p = Some t' → q `prefix_of` p →
  is_dir_node (walk t' q) = true.
Proof.
  revert t t' q. induction p as [|c p IH]; intros t t' q H Hpre.
  - apply prefix_nil_inv in Hpre as ->. destruct t; [done|].
    simpl in H. by injection H as <-.
  - destruct t as [|m]; [done|]. simpl in H.
    destruct (make_dirs (default (Dir ∅) (m !! c)) p) as [child|] eqn:E;
      [|done].
    injection H as <-. destruct q as [|d q]; [done|].
    apply prefix_cons_inv_1 in Hpre as Hd. subst d.
    apply prefix_cons_inv_2 in Hpre.
    cbn [walk]. rewrite lookup_insert_eq. simpl.
    by apply (IH (default (Dir ∅) (m !! c)) child).
Qed.

(** ** Scripts that keep the entry document *)

Section Preservation.
Variable P : node → Prop.

Lemma preserves_ret {A} (a : A) : preserves P (mret a).
Proof. intros w r w' [= _ <-]. done. Qed.

Lemma preserves_bind {A B} (m : proc A) (f : A → proc B) :
  preserves P m → (∀ a, preserves P (f a)) → preserves P (m ≫= f).
Proof.
  intros Hm Hf w r w' H HP. rewrite bind_run in H.
  destruct (m w) as [[e|a] w1] eqn:E.
  - injection H as _ <-. by apply (Hm _ _ _ E).
  - apply (Hf a _ _ _ H). by apply (Hm _ _ _ E).
Qed.

Lemma preserves_print s : preserves P (print s).
Proof. intros w r w' [= _ <-]. done. Qed.

Lemma preserves_print_exn s e : preserves P (print_exn s e).
Proof. intros w r w' [= _ <-]. done. Qed.

Lemma preserves_sys_exit {A} code : preserves P (@sys_exit A code).
Proof. intros w r w' [= _ <-]. done. Qed.

Lemma preserves_on_tree op :
  (∀ t t', op t = inr t' → P t → P t') → preserves P (on_tree op).
Proof.
  intros Hop w r w' H HP. unfold on_tree in H.
  destruct (op (tree w)) as [e|t'] eqn:E; injection H as _ <-; [done|].
  by apply (Hop _ _ E).
Qed.

Lemma preserves_try_except {A} (body : proc A) handler :
  preserves P body → (∀ e, preserves P (handler e)) →
  preserves P (try_except body handler).
Proof.
  intros Hb Hh w r w' H HP. unfold try_except in H.
  destruct (body w) as [[[code|e]|a] w1] eqn:E;
    try (injection H as _ <-; by apply (Hb _ _ _ E)).
  apply (Hh e _ _ _ H). by apply (Hb _ _ _ E).
Qed.

End Preservation.

Section EntryDocumentKept.
Import Validator Scaffolder.

Variables (sp : location) (content : str).

Lemma store_below_keeps t X r n t' :
  X ≠ SKILL_MD →
  store t (sp ++ X :: r) n = inr t' →
  has_entry_document sp content t → has_entry_document sp content t'.
Proof.
  intros HX Hstore [Hdirs [x Hdoc]]. unfold store in Hstore.
  destruct (place t (sp ++ X :: r) n) as [t1|] eqn:E; [|done].
  injection Hstore as ->. split.
  - intros q Hq. apply (place_walk_above _ _ _ _ _ E).
    + by apply prefix_app_r.
    + intros ->. apply prefix_length in Hq. rewrite length_app in Hq.
      simpl in Hq. lia.
  - exists x. rewrite <- Hdoc. apply (place_walk_beside _ _ _ _ _ E).
    + intros H. apply prefix_app_inv, prefix_cons_inv_1 in H. done.
    + intros H. apply prefix_app_inv, prefix_cons_inv_1 in H. done.
Qed.

Lemma mkdir_below_keeps X r t t' :
  X ≠ SKILL_MD →
  Path_mkdir t (sp ++ X :: r) false true = inr t' →
  has_entry_document sp content t → has_entry_document sp content t'.
Proof.
  intros HX H. unfold Path_mkdir in H.
  destruct (walk t (sp ++ X :: r)) as [n|].
  - destruct (_ && _); [|done]. by injection H as <-.
  - by apply (store_below_keeps _ _ _ _ _ HX H).
Qed.

Lemma write_text_below_keeps X r s t t' :
  X ≠ SKILL_MD →
  Path_write_text t (sp ++ X :: r) s = inr t' →
  has_entry_document sp content t → has_entry_document sp content t'.
Proof.
  intros HX H. unfold Path_write_text in H.
  destruct (walk t (sp ++ X :: r)) as [[d x|m]|]; [| done |];
    by apply (store_below_keeps _ _ _ _ _ HX H).
Qed.

Lemma chmod_below_keeps X r t t' :
  X ≠ SKILL_MD →
  Path_chmod_755 t (sp ++ X :: r) = inr t' →
  has_entry_document sp content t → has_entry_document sp content t'.
Proof.
  intros HX H. unfold Path_chmod_755 in H.
  destruct (walk t (sp ++ X :: r)) as [[d x|m]|]; [| | done].
  - by apply (store_below_keeps _ _ _ _ _ HX H).
  - by injection H as <-.
Qed.

End EntryDocumentKept.

(** ** What a successful scaffold leaves *)

Section ScaffoldSuccess.
Import Validator Scaffolder.

Variables EXAMPLE_SCRIPT_TEMPLATE EXAMPLE_REFERENCE_TEMPLATE : template.
Variable ASSETS_README_TEMPLATE : str.

Abbreviation scaffold_body :=
  (scaffold_skill_body EXAMPLE_SCRIPT_TEMPLATE EXAMPLE_REFERENCE_TEMPLATE
                       ASSETS_README_TEMPLATE).

Ltac keeps_step :=
  first
    [ apply preserves_print
    | apply preserves_print_exn
    | apply preserves_sys_exit
    | apply preserves_on_tree; intros ? ?; rewrite <- ?app_assoc; cbn [app];
      first [ apply mkdir_below_keeps
            | apply write_text_below_keeps
            | apply chmod_below_keeps ];
      by_computation ].

Ltac keeps :=
  repeat first [ keeps_step | apply preserves_bind; [|intros ?] ].

Lemma create_resources_keeps sp content name title :
  preserves (has_entry_document sp content)
    (create_resources EXAMPLE_SCRIPT_TEMPLATE EXAMPLE_REFERENCE_TEMPLATE
                      ASSETS_README_TEMPLATE sp name title).
Proof. unfold create_resources. keeps. Qed.

Lemma print_next_steps_keeps sp content name simple_mode :
  preserves (has_entry_document sp content)
    (print_next_steps sp name simple_mode).
Proof. unfold print_next_steps. destruct simple_mode; cbn [negb]; keeps. Qed.

(** A guarded step that goes on has changed the tree and printed its line. *)
Lemma guarded_step op s msg w r w' :
  try_except (_ ← on_tree op; print s)
             (λ e, _ ← print_exn msg e; sys_exit 1) w = (inr r, w') →
  ∃ t', op (tree w) = inr t' ∧ w' = World t' (printed w ++ [Line s]).
Proof.
  unfold try_except. rewrite bind_run. unfold on_tree.
  destruct (op (tree w)) as [e|t'].
  - by rewrite bind_run.
  - intros [= _ <-]. by exists t'.
Qed.

(** When the script returns, the naming check had passed, the search for the
    skills directory had found [skills_root], and the tree holds the package
    [skills_root / name] with the rendered entry document. *)
Lemma scaffold_success git current name simple_mode w r w' :
  scaffold_body git current name simple_mode w = (inr r, w') →
  name_rule name = true
  ∧ ∃ skills_root extra,
      find_skills_dir git current w
      = (inr skills_root, World (tree w) (printed w ++ extra))
      ∧ has_entry_document (skills_root ++ [name])
          (format SKILL_MD_TEMPLATE name (title_case_skill_name name))
          (tree w').
Proof.
  unfold scaffold_skill_body. destruct (name_rule name); cbn [negb].
  2:{ by rewrite !bind_run. }
  intros H. split; [done|].
  destruct (find_skills_dir_pure git current w) as (skills_root & extra & E).
  exists skills_root, extra. split; [done|].
  rewrite bind_run, E, bind_run in H. unfold get_tree at 1 in H.
  cbn [tree] in H.
  destruct (Path_exists (tree w) (skills_root ++ [name])) eqn:Hex.
  { by rewrite bind_run in H. }
  rewrite bind_run in H.
  match type of H with
  | match ?step ?w1 with _ => _ end = _ => destruct (step w1) as [[e|[]] w2] eqn:E1
  end; [done|].
  apply guarded_step in E1 as (t1 & Hmk & ->).
  rewrite bind_run in H.
  match type of H with
  | match ?step ?w1 with _ => _ end = _ => destruct (step w1) as [[e|[]] w3] eqn:E2
  end; [done|].
  apply guarded_step in E2 as (t2 & Hwr & ->).
  cbn [tree printed] in *.
  set (content := format SKILL_MD_TEMPLATE name (title_case_skill_name name))
    in *.
  assert (has_entry_document (skills_root ++ [name]) content t2) as Hdoc.
  { unfold Path_mkdir in Hmk. unfold Path_exists in Hex.
    destruct (walk (tree w) (skills_root ++ [name])) as [n|] eqn:Hw.
    { rewrite bool_decide_eq_true_2 in Hex; [done | by eexists]. }
    destruct (make_dirs (tree w) (skills_root ++ [name])) as [t1'|] eqn:Hmd;
      [|done].
    injection Hmk as ->.
    assert (∃ n, place t1 ((skills_root ++ [name]) ++ [SKILL_MD]) n = Some t2
                 ∧ ∃ x, n = File (Text content) x) as (n & Hpl & x & ->).
    { unfold Path_write_text, store in Hwr.
      destruct (walk t1 _) as [[d x|m]|]; [| done |];
        destruct (place t1 _ _) as [t|] eqn:Hpl; try done;
        injection Hwr as ->; eauto. }
    split.
    - intros q Hq. apply (place_walk_above _ _ _ _ _ Hpl).
      + by apply prefix_app_r.
      + intros ->. apply prefix_length in Hq. rewrite !length_app in Hq.
        simpl in Hq. lia.
    - exists x. by apply (place_walk _ _ _ _ Hpl). }
  match type of H with
  | ?m ?w4 = _ =>
      assert (preserves (has_entry_document (skills_root ++ [name]) content) m)
        as Hk
  end.
  { apply preserves_bind; [|intros ?; apply print_next_steps_keeps].
    destruct simple_mode; cbn [negb]; [keeps|].
    apply preserves_try_except; [apply create_resources_keeps|].
    intros e. keeps. }
  apply (Hk _ _ _ H Hdoc).
Qed.

End ScaffoldSuccess.

(** ** The field patterns on a line *)

Lemma sre_lit ml s its pos prev rest mk :
  sre ml (lit s ++ its) pos prev (s ++ rest) mk
  = sre ml its (pos + length s)%nat (prev_after prev s) rest mk.
Proof.
  revert pos prev. induction s as [|c s IH]; intros pos prev.
  - simpl. by rewrite Nat.add_0_r.
  - cbn [lit List.map app sre one]. rewrite N.eqb_refl.
    change (List.map (λ c, One (N.eqb c)) s) with (lit s).
    rewrite IH, (prev_after_cons prev). simpl length.
    by rewrite Nat.add_succ_r.
Qed.

(** A line that starts with the key, goes on with white space and then with
    a value that does not start with white space, matches, and the group is
    the value. *)
Lemma sre_field_line key_colon pos prev ws c v rest :
  at_bol true prev = true →
  forallb is_space ws = true →
  is_space c = false →
  forallb any (c :: v) = true →
  let at_value := (pos + length key_colon + length ws)%nat in
  sre true (field_pattern key_colon) pos prev
      (key_colon ++ ws ++ (c :: v) ++ LF :: rest) no_marks
  = Some ((at_value + length (c :: v))%nat,
          Marks at_value (at_value + length (c :: v))).
Proof.
  intros Hbol Hws Hc Hv at_value. unfold field_pattern.
  cbn [app sre]. rewrite Hbol, sre_lit. cbn [sre].
  apply andb_prop in Hv as [Hc' Hv].
  apply greedy_longest; [done | done |].
  cbn [one app g_close g_open no_marks]. rewrite Hc'.
  rewrite (greedy_longest any _ _ _ v (LF :: rest) _
             ((at_value + S (length v))%nat,
              Marks at_value (at_value + S (length v)))); [done..|].
  cbn [at_eol g_open]. rewrite N.eqb_refl. cbn [andb orb].
  by rewrite Nat.add_succ_comm.
Qed.

Lemma search_from_hit ml its pos prev rest r :
  sre ml its pos prev rest no_marks = Some r →
  search_from ml its pos prev rest = Some r.
Proof. intros H. destruct rest; simpl; by rewrite H. Qed.

Lemma search_from_skip ml its pos prev c rest :
  sre ml its pos prev (c :: rest) no_marks = None →
  search_from ml its pos prev (c :: rest)
  = search_from ml its (S pos) (Some c) rest.
Proof. intros H. simpl. by rewrite H. Qed.

(** A match further on makes the search succeed. *)
Lemma search_from_later ml its pos prev a b :
  is_Some (sre ml its (pos + length a)%nat (prev_after prev a) b no_marks) →
  is_Some (search_from ml its pos prev (a ++ b)).
Proof.
  revert pos prev. induction a as [|c a IH]; intros pos prev H.
  - simpl in H. rewrite Nat.add_0_r in H. destruct H as [r H].
    exists r. by apply search_from_hit.
  - cbn [app]. destruct (sre ml its pos prev (c :: a ++ b) no_marks) eqn:E.
    + eexists. by apply search_from_hit.
    + rewrite search_from_skip by done. apply IH.
      by rewrite (prev_after_cons prev), Nat.add_succ_comm.
Qed.

(** ** The characters of a legal identifier *)

Lemma alnum_hyphen_bounds c :
  alnum_hyphen c = true ↔
  (97 ≤ c ∧ c ≤ 122) ∨ (48 ≤ c ∧ c ≤ 57) ∨ c = 45.
Proof.
  unfold alnum_hyphen, alnum, is_lower, is_digit, hyphen.
  rewrite !orb_true_iff, !andb_true_iff, !N.leb_le, N.eqb_eq. tauto.
Qed.

Lemma alnum_bounds c :
  alnum c = true ↔ (97 ≤ c ∧ c ≤ 122) ∨ (48 ≤ c ∧ c ≤ 57).
Proof.
  unfold alnum, is_lower, is_digit.
  by rewrite !orb_true_iff, !andb_true_iff, !N.leb_le.
Qed.

Lemma is_space_bounds c : is_space c = true → c ≤ 32 ∨ 133 ≤ c.
Proof.
  unfold is_space.
  rewrite !orb_true_iff, !andb_true_iff, !N.leb_le, !N.eqb_eq. lia.
Qed.

Lemma alnum_hyphen_not_space c : alnum_hyphen c = true → is_space c = false.
Proof.
  intros H%alnum_hyphen_bounds. apply not_true_is_false.
  intros Hs%is_space_bounds. lia.
Qed.

Lemma alnum_hyphen_any c : alnum_hyphen c = true → any c = true.
Proof.
  intros H%alnum_hyphen_bounds. unfold any, LF.
  apply negb_true_iff, N.eqb_neq. lia.
Qed.

Lemma alnum_hyphen_plain c :
  alnum_hyphen c = true → c ≠ sep ∧ c ≠ CR ∧ c ≠ LF ∧ c ≠ 46.
Proof. intros H%alnum_hyphen_bounds. unfold sep, CR, LF. lia. Qed.

Lemma legal_identifier_chars s :
  legal_identifier s = true → forallb alnum_hyphen s = true.
Proof. unfold legal_identifier. rewrite !andb_true_iff. tauto. Qed.

(** ** The rendered entry document *)

Section Rendered.
Import Validator Scaffolder.

(** The rendered template starts with the name line and the description
    line. *)
Lemma rendered_shape name title :
  ∃ c desc rest,
    format SKILL_MD_TEMPLATE name title
    = u "---
" ++ (u "name:" ++ [space] ++ name
        ++ LF :: (u "description:" ++ [space] ++ (c :: desc) ++ LF :: rest))
    ∧ is_space c = false
    ∧ forallb any (c :: desc) = true.
Proof.
  unfold format, SKILL_MD_TEMPLATE. cbn [List.map concat].
  match goal with
  | |- context [?A ++ name ++ ?B ++ title ++ ?tail'] =>
      pose (tail := title ++ tail');
      change (A ++ name ++ B ++ title ++ tail')
        with (A ++ name ++ B ++ tail);
      exists 91, (first_line (drop 15 B)), (next_lines (drop 15 B) ++ tail);
      replace A with (u "---
" ++ u "name:" ++ [space]) by (vm_compute; reflexivity);
      replace B with (LF :: u "description:" ++ [space]
                         ++ (91 :: first_line (drop 15 B))
                         ++ LF :: next_lines (drop 15 B))
        by (vm_compute; reflexivity)
  end.
  split; [|split; vm_compute; reflexivity].
  rewrite <- !app_assoc. cbn [app]. by rewrite <- !app_assoc.
Qed.

(** Nothing in the template is a carriage return. *)
Lemma rendered_no_CR name title :
  CR ∉ name → CR ∉ title → CR ∉ format SKILL_MD_TEMPLATE name title.
Proof.
  intros Hn Ht. unfold format, SKILL_MD_TEMPLATE. cbn [List.map concat].
  repeat (apply not_elem_of_app; split;
          [first [assumption | by_computation]|]).
  by_computation.
Qed.

Lemma lstrip_id c s : is_space c = false → lstrip (c :: s) = c :: s.
Proof. intros H. simpl. by rewrite H. Qed.

(** A text with no white space at either end is its own [strip()]. *)
Lemma strip_id c x d :
  is_space c = false → is_space d = false →
  strip (c :: x ++ [d]) = c :: x ++ [d].
Proof.
  intros Hc Hd. unfold strip, rstrip. rewrite lstrip_id by done.
  rewrite app_comm_cons, rev_unit, lstrip_id by done.
  by rewrite <- (rev_unit (c :: x) d), rev_involutive.
Qed.

Lemma universal_newlines_id s : CR ∉ s → universal_newlines s = s.
Proof.
  induction s as [|c s IH]; [done|].
  intros [Hc Hs]%not_elem_of_cons. simpl.
  destruct (N.eqb_spec c CR) as [->|_]; [done|]. by rewrite IH.
Qed.

Lemma capitalize_no_CR s : CR ∉ s → CR ∉ capitalize s.
Proof.
  destruct s as [|c s]; [done|]. intros [Hc Hs]%not_elem_of_cons.
  cbn [capitalize]. apply not_elem_of_cons. split.
  - unfold upper, is_lower, CR in *.
    destruct (_ && _) eqn:E; [|done].
    apply andb_prop in E as [E1%N.leb_le E2%N.leb_le]. lia.
  - intros (e & He & Hin)%list_elem_of_In%in_map_iff.
    unfold lower, is_upper, CR in *.
    destruct (_ && _) eqn:E.
    + apply andb_prop in E as [E1%N.leb_le E2%N.leb_le]. lia.
    + subst e. by apply Hs, list_elem_of_In.
Qed.

Lemma split_no_CR c s : CR ∉ s → Forall (λ w, CR ∉ w) (split c s).
Proof.
  induction s as [|x s IH]; intros H.
  - repeat constructor. by intros ?%elem_of_nil.
  - apply not_elem_of_cons in H as [Hx Hs]. specialize (IH Hs). simpl.
    destruct (x =? c).
    + constructor; [by intros ?%elem_of_nil | done].
    + pose proof (split_not_nil c s) as Hne.
      destruct (split c s) as [|w ws]; [done|].
      inversion IH as [|? ? Hw Hws]; subst.
      constructor; [|done]. by apply not_elem_of_cons.
Qed.

Lemma join_no_CR j ws :
  CR ∉ j → Forall (λ w, CR ∉ w) ws → CR ∉ join j ws.
Proof.
  intros Hj. induction 1 as [|w ws Hw Hws IH]; [by intros ?%elem_of_nil|].
  cbn [join]. destruct ws as [|w' ws]; [done|].
  rewrite !not_elem_of_app. done.
Qed.

Lemma title_no_CR name : CR ∉ name → CR ∉ title_case_skill_name name.
Proof.
  intros H. unfold title_case_skill_name. apply join_no_CR; [by_computation|].
  apply Forall_forall. intros w Hw%list_elem_of_In%in_map_iff.
  destruct Hw as (w0 & <- & Hw0). apply capitalize_no_CR.
  pose proof (split_no_CR hyphen name H) as HF.
  rewrite Forall_forall in HF. by apply HF, list_elem_of_In.
Qed.

(** The name the validator reads in the rendered document is the name it
    was rendered with. *)
Lemma declared_name_rendered name title :
  legal_identifier name = true →
  declared_name (format SKILL_MD_TEMPLATE name title) = Some name.
Proof.
  intros Hlegal.
  destruct (rendered_shape name title) as (c0 & desc & rest & -> & _ & _).
  apply legal_identifier_shape in Hlegal as (c & x & d & -> & Hc & Hx & Hd).
  assert (forallb any (c :: x ++ [d]) = true) as Hany.
  { cbn [forallb]. rewrite forallb_app. cbn [forallb].
    rewrite !alnum_hyphen_any by by apply alnum_alnum_hyphen.
    rewrite andb_true_r. cbn [andb]. apply forallb_forall.
    intros e He. rewrite forallb_forall in Hx. by apply alnum_hyphen_any, Hx. }
  pose proof (alnum_hyphen_not_space c (alnum_alnum_hyphen c Hc)) as Hsc.
  pose proof (alnum_hyphen_not_space d (alnum_alnum_hyphen d Hd)) as Hsd.
  unfold declared_name, re_search.
  replace (u "---
") with [45; 45; 45; 10] by (vm_compute; reflexivity).
  change ([45; 45; 45; 10] ++ ?X) with (45 :: 45 :: 45 :: 10 :: X).
  do 4 (rewrite search_from_skip by (vm_compute; reflexivity)).
  unfold NAME_FIELD.
  rewrite (search_from_hit _ _ _ _ _ _
             (sre_field_line (u "name:") 4 (Some 10) [space] c (x ++ [d]) _
                eq_refl eq_refl Hsc Hany)).
  unfold group1. cbn [g_open g_close].
  replace (4 + length (u "name:") + length [space])%nat with 10%nat
    by (vm_compute; reflexivity).
  replace (u "name:") with [110; 97; 109; 101; 58]
    by (vm_compute; reflexivity).
  cbn [app drop]. rewrite Nat.add_comm, Nat.add_sub.
  change (c :: (x ++ [d]) ++ ?r) with ((c :: x ++ [d]) ++ r).
  rewrite take_app_length. by rewrite strip_id.
Qed.

Lemma has_description_rendered name title :
  has_description (format SKILL_MD_TEMPLATE name title) = true.
Proof.
  destruct (rendered_shape name title) as (c & desc & rest & -> & Hc & Hany).
  unfold has_description, re_search. apply bool_decide_eq_true.
  set (b := u "description:" ++ [space] ++ (c :: desc) ++ LF :: rest).
  match goal with
  | |- is_Some (search_from _ _ _ _ (?h ++ ?k ++ ?s ++ name ++ LF :: b)) =>
      replace (h ++ k ++ s ++ name ++ LF :: b)
        with ((h ++ k ++ s ++ name ++ [LF]) ++ b)
        by (by rewrite <- !app_assoc)
  end.
  apply search_from_later. unfold prev_after. rewrite !app_assoc, last_snoc.
  unfold DESCRIPTION_FIELD, b.
  rewrite (sre_field_line (u "description:") _ (Some LF) [space] c desc rest
             eq_refl eq_refl Hc Hany).
  by eexists.
Qed.

(** The metadata checks find nothing in the rendered document of a legal
    identifier. *)
Lemma metadata_errors_rendered name title :
  legal_identifier name = true →
  metadata_errors name (format SKILL_MD_TEMPLATE name title) = [].
Proof.
  intros H. unfold metadata_errors, str_eqb.
  rewrite declared_name_rendered, has_description_rendered by done.
  by rewrite bool_decide_eq_true_2.
Qed.

End Rendered.

(** ** The validator on the path of a [pathlib.Path] *)

Lemma join_cons_cons j w w' ws : join j (w :: w' :: ws) = w ++ j ++ join j (w' :: ws).
Proof. done. Qed.

Lemma join_snoc j ws w : ws ≠ [] → join j (ws ++ [w]) = join j ws ++ j ++ w.
Proof.
  induction ws as [|w0 ws IH]; [done|]. intros _.
  destruct ws as [|w1 ws]; [done|].
  cbn [app] in *. rewrite !join_cons_cons, IH by done.
  by rewrite <- !app_assoc.
Qed.

Lemma split_join ws :
  ws ≠ [] → Forall (λ w, sep ∉ w) ws → split sep (join [sep] ws) = ws.
Proof.
  induction ws as [|w ws IH]; [done|]. intros _ Hall.
  inversion Hall as [|? ? Hw Hws]; subst.
  destruct ws as [|w' ws]; [by apply split_no_sep|].
  rewrite join_cons_cons. cbn [app]. rewrite split_app_sep, IH by done.
  by rewrite split_no_sep.
Qed.

Lemma proper_name_no_sep q : Forall proper_name q → Forall (λ w, sep ∉ w) q.
Proof. intros H. eapply Forall_impl; [done|]. by intros w (_ & _ & _ & ?). Qed.

Lemma split_Path_str q :
  q ≠ [] → Forall proper_name q → split sep (Path_str q) = [] :: q.
Proof.
  intros Hne Hq. unfold Path_str.
  by rewrite split_cons_sep, split_join
    by first [assumption | by apply proper_name_no_sep].
Qed.

Lemma normpath_step_proper i acc c :
  proper_name c → normpath_step i acc c = acc ++ [c].
Proof.
  intros (H1 & H2 & H3 & _). unfold normpath_step, str_eqb.
  by rewrite !bool_decide_eq_false_2 by done.
Qed.

Lemma foldl_normpath_step_proper i acc q :
  Forall proper_name q → foldl (normpath_step i) acc q = acc ++ q.
Proof.
  intros H. revert acc. induction H as [|c q Hc Hq IH]; intros acc.
  - by rewrite app_nil_r.
  - simpl. rewrite normpath_step_proper, IH by done. by rewrite <- app_assoc.
Qed.

(** Such a path starts with one slash and a name. *)
Lemma Path_str_head q :
  q ≠ [] → Forall proper_name q →
  ∃ c r, Path_str q = sep :: c :: r ∧ c ≠ sep.
Proof.
  intros Hne Hq. destruct q as [|w q]; [done|].
  inversion Hq as [|? ? (Hw & _ & _ & Hsep) _]; subst.
  destruct w as [|c w]; [done|]. unfold Path_str.
  assert (c ≠ sep) as Hc.
  { intros ->. apply Hsep, list_elem_of_here. }
  destruct q as [|w' q]; [by exists c, w|].
  rewrite join_cons_cons. cbn [app]. by eexists c, _.
Qed.

Lemma normpath_Path_str q :
  q ≠ [] → Forall proper_name q → normpath (Path_str q) = Path_str q.
Proof.
  intros Hne Hq. unfold normpath.
  rewrite split_Path_str by done.
  destruct (Path_str_head q Hne Hq) as (c & r & E & Hc).
  assert (initial_slashes_of (Path_str q) = 1%nat) as ->.
  { rewrite E. unfold initial_slashes_of, startswith, str_eqb. cbn [length take].
    rewrite take_0, bool_decide_eq_true_2 by done.
    rewrite bool_decide_eq_false_2; [done|]. intros [= ?]. done. }
  unfold str_eqb. rewrite (bool_decide_eq_false_2 (Path_str q = [])) by done.
  cbn [foldl]. rewrite normpath_step_nil, foldl_normpath_step_proper by done.
  cbn [app replicate]. by rewrite bool_decide_eq_false_2.
Qed.

Lemma skill_dir_of_Path_str sp name :
  Forall proper_name (sp ++ [name]) →
  Validator.skill_dir_of (Path_str (sp ++ [name])) = name.
Proof.
  intros Hq. unfold Validator.skill_dir_of.
  rewrite normpath_Path_str by (done || by destruct sp).
  unfold basename. rewrite split_Path_str by (done || by destruct sp).
  by rewrite app_comm_cons, last_snoc.
Qed.

Lemma endswith_char_snoc s c d : endswith_char (s ++ [c]) d = (c =? d).
Proof. unfold endswith_char. by rewrite last_snoc. Qed.

Lemma path_join_Path_str q x :
  q ≠ [] → Forall proper_name q → proper_name x →
  path_join (Path_str q) x = Path_str (q ++ [x]).
Proof.
  intros Hne Hq (Hx & _ & _ & Hsep). unfold path_join.
  assert (startswith x [sep] = false) as ->.
  { destruct x as [|c x]; [done|]. unfold startswith, str_eqb. simpl.
    apply bool_decide_eq_false_2. intros [= ->]. apply Hsep, list_elem_of_here. }
  unfold str_eqb at 1. rewrite bool_decide_eq_false_2 by done. cbn [orb].
  assert (endswith_char (Path_str q) sep = false) as ->.
  { destruct q as [|w q _] using rev_ind; [done|].
    apply Forall_app in Hq as [_ Hw].
    inversion Hw as [|? ? (Hw1 & _ & _ & Hw2) _]; subst.
    destruct w as [|c w _] using rev_ind; [done|].
    assert (c ≠ sep) as Hc.
    { intros ->. apply Hw2, elem_of_app. right. apply list_elem_of_here. }
    unfold Path_str. destruct q as [|w0 q].
    - cbn [app join]. rewrite app_comm_cons, endswith_char_snoc.
      by apply N.eqb_neq.
    - rewrite join_snoc by done. rewrite !app_comm_cons, !app_assoc.
      rewrite endswith_char_snoc. by apply N.eqb_neq. }
  unfold Path_str. rewrite join_snoc by done. done.
Qed.

Lemma step_proper t l c :
  is_dir_node (walk t l) = true → proper_name c →
  step t (Some l) c = Some (l ++ [c]).
Proof.
  intros Hdir (H1 & H2 & H3 & _). unfold step, str_eqb.
  by rewrite Hdir, !bool_decide_eq_false_2 by done.
Qed.

Lemma foldl_step_proper t l q :
  Forall proper_name q →
  (∀ q', q' `prefix_of` q → q' ≠ q → is_dir_node (walk t (l ++ q')) = true) →
  foldl (step t) (Some l) q = Some (l ++ q).
Proof.
  intros Hq. revert l. induction Hq as [|c q Hc Hq IH]; intros l Hdirs.
  - by rewrite app_nil_r.
  - cbn [foldl]. rewrite step_proper; [|rewrite <- (app_nil_r l)|done].
    + rewrite IH; [by rewrite <- app_assoc|].
      intros q' Hpre Hne. rewrite <- app_assoc. apply Hdirs.
      * by apply prefix_cons.
      * by intros [= ->].
    + apply Hdirs; [apply prefix_nil | done].
Qed.

(** The path of a place whose ancestors are directories names that place. *)
Lemma locate_Path_str fs q :
  q ≠ [] → Forall proper_name q →
  (∀ q', q' `prefix_of` q → q' ≠ q → is_dir_node (walk (root fs) q') = true) →
  locate fs (Path_str q) = Some q.
Proof.
  intros Hne Hq Hdirs. unfold Path_str at 1. rewrite locate_cons, N.eqb_refl.
  fold (Path_str q). rewrite split_Path_str by done. cbn [foldl].
  assert (step (root fs) (Some []) [] = Some []) as ->.
  { unfold step. rewrite (Hdirs []); [done | apply prefix_nil | done]. }
  by apply (foldl_step_proper _ []).
Qed.

(** ** The round trip on legal identifiers *)

Section RoundTrip.
Import Validator Scaffolder.

Variables EXAMPLE_SCRIPT_TEMPLATE EXAMPLE_REFERENCE_TEMPLATE : template.
Variable ASSETS_README_TEMPLATE : str.

Lemma legal_identifier_proper name :
  legal_identifier name = true → proper_name name ∧ CR ∉ name.
Proof.
  intros H. pose proof (legal_identifier_chars name H) as Hall.
  rewrite forallb_forall in Hall.
  assert (∀ c, c ∈ name → c ≠ sep ∧ c ≠ CR ∧ c ≠ LF ∧ c ≠ 46) as Hplain.
  { intros c Hc. by apply alnum_hyphen_plain, Hall, list_elem_of_In. }
  apply legal_identifier_shape in H as (c & x & d & -> & _).
  assert (c ≠ 46) as Hc by (apply Hplain, list_elem_of_here).
  split; [split_and!|].
  - done.
  - replace dot with [46] by (vm_compute; reflexivity). by intros [= ? _].
  - replace dotdot with [46; 46] by (vm_compute; reflexivity).
    by intros [= ? _].
  - intros Hin. by destruct (Hplain _ Hin).
  - intros Hin. by destruct (Hplain _ Hin) as (_ & ? & _).
Qed.

Lemma SKILLS_proper : Forall proper_name SKILLS.
Proof. repeat constructor; by_computation. Qed.

Lemma SKILL_MD_proper : proper_name SKILL_MD.
Proof. repeat split; by_computation. Qed.

(** The skills directory is made of the names of the working directory or
    of the project root. *)
Lemma find_skills_dir_proper git current w skills_root w' :
  Forall proper_name current →
  (∀ git_root, git = Some git_root → Forall proper_name git_root) →
  find_skills_dir git current w = (inr skills_root, w') →
  Forall proper_name skills_root.
Proof.
  intros Hcur Hgit.
  unfold find_skills_dir, mbind, proc_bind, get_tree, mret, proc_ret, print.
  destruct w as [t out]. cbv beta. cbn [tree printed].
  assert (∀ parent, In parent (self_and_parents current) →
                    Forall proper_name (parent ++ SKILLS)) as Hparents.
  { intros parent Hin. apply Forall_app. split; [|apply SKILLS_proper].
    destruct Hin as [<-|Hin]; [done|].
    assert (∀ n, In parent (parents_upto n current) →
                 ∃ k, parent = take k current) as Htake.
    { induction n as [|n IH]; [done|]. intros [<-|Hn]; eauto. }
    destruct (Htake _ Hin) as [k ->]. by apply Forall_take. }
  destruct (List.find _ _) as [parent|] eqn:F.
  - apply find_some in F as [Hin _].
    destruct git as [git_root|]; [destruct (Path_exists t _)|];
      intros [= <- _]; try by apply Hparents.
    apply Forall_app. split; [by apply Hgit | apply SKILLS_proper].
  - destruct git as [git_root|]; [destruct (Path_exists t _)|];
      intros [= <- _]; try done.
    apply Forall_app. split; [by apply Hgit | apply SKILLS_proper].
Qed.

(** For a legal identifier and a run of the scaffolder that returns, the
    validator run on the package path the scaffolder reports has an empty
    CRITICAL list, in both modes. *)
Theorem roundtrip_legal_identifier git fs name simple_mode :
  legal_identifier name = true →
  Forall proper_name (cwd fs) →
  (∀ git_root, git = Some git_root → Forall proper_name git_root) →
  let after :=
    scaffold_skill EXAMPLE_SCRIPT_TEMPLATE EXAMPLE_REFERENCE_TEMPLATE
                   ASSETS_README_TEMPLATE git fs name simple_mode in
  ended (snd after) = Returned →
  critical (fst after) (skill_path_of git fs name) = Some [].
Proof.
  intros Hlegal Hcwd Hgit after. unfold after, scaffold_skill, execute.
  destruct (scaffold_skill_body _ _ _ git (cwd fs) name simple_mode
              (World (root fs) [])) as [[[code|e]|[]] w'] eqn:E; try done.
  intros _. cbn [fst].
  apply scaffold_success in E as (Hname & skills_root & extra & Hfind & Hdoc).
  cbn [tree printed] in Hfind.
  unfold skill_path_of. rewrite Hfind.
  pose proof (find_skills_dir_proper _ _ _ _ _ Hcwd Hgit Hfind) as Hroot.
  destruct (legal_identifier_proper name Hlegal) as [Hproper HCR].
  set (sp := skills_root ++ [name]) in *.
  set (content := format SKILL_MD_TEMPLATE name (title_case_skill_name name))
    in *.
  assert (Forall proper_name sp) as Hsp.
  { apply Forall_app. split; [done | by constructor]. }
  assert (sp ≠ []) as Hne by (unfold sp; by destruct skills_root).
  destruct Hdoc as [Hdirs [x Hfile]].
  assert (read_text (FS (tree w') (cwd fs)) (path_join (Path_str sp) SKILL_MD)
          = inr content) as Hread.
  { rewrite path_join_Path_str by (done || apply SKILL_MD_proper).
    unfold read_text, stat. rewrite locate_Path_str.
    - cbn [mbind option_bind root]. rewrite Hfile.
      rewrite universal_newlines_id; [done|].
      apply rendered_no_CR; [done | by apply title_no_CR].
    - by destruct sp.
    - apply Forall_app. split; [done|]. constructor; [|done].
      apply SKILL_MD_proper.
    - intros q' [k Hk] Hq'. cbn [root]. apply Hdirs.
      destruct k as [|s k _] using rev_ind.
      { by rewrite app_nil_r in Hk. }
      rewrite app_assoc in Hk. apply app_inj_tail in Hk as [-> _].
      by apply prefix_app_r. }
  unfold critical. rewrite (findings_readable _ _ _ Hread).
  unfold sp at 1 2. rewrite skill_dir_of_Path_str by done.
  unfold content. by rewrite Hname, metadata_errors_rendered.
Qed.

End RoundTrip.

(** ** Scenarios *)

Section Scenarios.
Import Validator Scaffolder.

Variables EXAMPLE_SCRIPT_TEMPLATE EXAMPLE_REFERENCE_TEMPLATE : template.
Variable ASSETS_README_TEMPLATE : str.

Abbreviation scaffold' :=
  (scaffold_skill EXAMPLE_SCRIPT_TEMPLATE EXAMPLE_REFERENCE_TEMPLATE
                  ASSETS_README_TEMPLATE).

(** After a run that returns, the package path exists. *)
Lemma scaffold_creates_package git fs name simple_mode skills_root w :
  ended (snd (scaffold' git fs name simple_mode)) = Returned →
  find_skills_dir git (cwd fs) (World (root fs) []) = (inr skills_root, w) →
  Path_exists (root (fst (scaffold' git fs name simple_mode)))
              (skills_root ++ [name]) = true.
Proof.
  unfold scaffold_skill, execute.
  destruct (scaffold_skill_body _ _ _ git (cwd fs) name simple_mode
              (World (root fs) [])) as [[[code|e]|[]] w'] eqn:E; try done.
  intros _ Hfind. cbn [fst root].
  apply scaffold_success in E as (_ & sr & extra & Hfind' & Hdirs & _).
  rewrite Hfind in Hfind'. injection Hfind' as -> _.
  unfold Path_exists. apply bool_decide_eq_true.
  specialize (Hdirs (sr ++ [name]) (reflexivity _)).
  by destruct (walk (tree w') (sr ++ [name])).
Qed.

(** X9.  A second call with the same name, from a tree in which the search finds
    the same skills directory, is refused and changes nothing. *)
Lemma scaffold_twice git fs name mode1 mode2 skills_root w1 w2 :
  let fs1 := fst (scaffold' git fs name mode1) in
  ended (snd (scaffold' git fs name mode1)) = Returned →
  find_skills_dir git (cwd fs) (World (root fs) []) = (inr skills_root, w1) →
  find_skills_dir git (cwd fs1) (World (root fs1) []) = (inr skills_root, w2) →
  scaffold' git fs1 name mode2 =
    (fs1,
     Run (printed w2
          ++ [Line (u "❌ Error: Skill directory already exists: "
                      ++ Path_str (skills_root ++ [name]))])
         (Exited 1)).
Proof.
  intros fs1 Hret Hfind1 Hfind2.
  assert (name_rule name = true) as Hname.
  { unfold scaffold_skill, execute in Hret.
    destruct (scaffold_skill_body _ _ _ git (cwd fs) name mode1
                (World (root fs) [])) as [[[code|e]|[]] w'] eqn:E; try done.
    by apply scaffold_success in E as [? _]. }
  pose proof (scaffold_creates_package _ _ _ _ _ w1 Hret Hfind1) as Hex.
  fold fs1 in Hex. unfold scaffold_skill at 1, execute.
  rewrite (scaffold_body_existing _ _ _ git (cwd fs1) name mode2
             (World (root fs1) []) skills_root w2 Hname Hfind2 Hex).
  cbn [tree printed]. by destruct fs1.
Qed.

End Scenarios.

Section ScenarioExamples.
Import Validator Scaffolder.

(** The scenario of the specification: [pdf-filler] is scaffolded with its
    three directories and then validates with status 0. *)
Example scaffold_pdf_filler :
  let after := scaffold_skill [] [] [] None project_fs (u "pdf-filler") false in
  ended (snd after) = Returned
  ∧ os_path_isdir (fst after) (u "/repo/.github/skills/pdf-filler/scripts")
    = true
  ∧ os_path_isdir (fst after) (u "/repo/.github/skills/pdf-filler/references")
    = true
  ∧ os_path_isdir (fst after) (u "/repo/.github/skills/pdf-filler/assets")
    = true
  ∧ declared_name
      (format SKILL_MD_TEMPLATE (u "pdf-filler")
              (title_case_skill_name (u "pdf-filler")))
    = Some (u "pdf-filler")
  ∧ critical (fst after) (skill_path_of None project_fs (u "pdf-filler"))
    = Some []
  ∧ exit_code (ended (validate_skill (fst after)
                        (u "/repo/.github/skills/pdf-filler"))) = 0%Z.
Proof. cbv zeta. split_and!; by vm_compute. Qed.

(** The round trip theorem at that name, in simple mode. *)
Example roundtrip_pdf_filler :
  critical (fst (scaffold_skill [] [] [] None project_fs (u "pdf-filler") true))
           (skill_path_of None project_fs (u "pdf-filler"))
  = Some [].
Proof.
  apply (roundtrip_legal_identifier [] [] [] None project_fs (u "pdf-filler")
           true).
  - by vm_compute.
  - repeat constructor; by_computation.
  - done.
  - by vm_compute.
Qed.

(** The search for the skills directory can move between two calls: from a
    working directory named [.github], the first call for the name [skills]
    creates [.github/skills], which the second call then takes as the skills
    directory and scaffolds [skills] inside it. *)
Example scaffold_twice_moved_root :
  let first := scaffold_skill [] [] [] None inside_github_fs (u "skills") true in
  let second := scaffold_skill [] [] [] None (fst first) (u "skills") true in
  ended (snd first) = Returned
  ∧ skill_path_of None inside_github_fs (u "skills") = u "/repo/.github/skills"
  ∧ skill_path_of None (fst first) (u "skills")
    = u "/repo/.github/skills/skills"
  ∧ ended (snd second) = Returned.
Proof. by vm_compute. Qed.

End ScenarioExamples.

(** * Further properties *)

(** ** When the validator passes *)

Section ValidatorPass.
Import Validator.

Lemma metadata_errors_nil skill_dir content :
  metadata_errors skill_dir content = [] ↔
  declared_name content = Some skill_dir ∧ has_description content = true.
Proof.
  unfold metadata_errors, str_eqb. split.
  - intros H. apply app_eq_nil in H as [Hn Hd].
    destruct (declared_name content) as [declared|]; [|done].
    destruct (has_description content); [|done].
    destruct (decide (declared = skill_dir)) as [->|Hne]; [done|].
    by rewrite bool_decide_eq_false_2 in Hn.
  - intros [-> ->]. by rewrite bool_decide_eq_true_2.
Qed.

(** X2.  The process ends with status 0 exactly when the last component of the
    normalized path passes the naming check, the entry document can be read,
    the name it declares is that component and it has a description line. *)
Theorem validate_passes_iff fs path :
  exit_code (ended (validate_skill fs path)) = 0%Z ↔
  name_rule (skill_dir_of path) = true
  ∧ ∃ content,
      read_text fs (path_join path SKILL_MD) = inr content
      ∧ declared_name content = Some (skill_dir_of path)
      ∧ has_description content = true.
Proof.
  rewrite exit_code_findings. split.
  - intros [warnings H].
    destruct (os_path_exists fs (path_join path SKILL_MD)) eqn:Hex.
    + destruct (read_text fs (path_join path SKILL_MD)) as [e|content] eqn:Hr.
      * by rewrite (findings_unreadable _ _ _ Hr Hex) in H.
      * rewrite (findings_readable _ _ _ Hr) in H.
        injection H as H _. apply app_eq_nil in H as [Hn Hm].
        destruct (name_rule (skill_dir_of path)); [|done].
        split; [done|]. exists content. split; [done|].
        by apply metadata_errors_nil.
    + rewrite (findings_missing _ _ Hex) in H. injection H as H _.
      by apply app_eq_nil in H as [_ ?].
  - intros (Hname & content & Hr & Hd & Hdesc).
    exists (advisories fs path).
    rewrite (findings_readable _ _ _ Hr), Hname.
    by rewrite (proj2 (metadata_errors_nil _ _)).
Qed.

End ValidatorPass.

(** ** Reading the metadata fields *)

Section Fields.
Import Validator.

Lemma startswith_spec s p : startswith s p = true ↔ ∃ b, s = p ++ b.
Proof.
  unfold startswith, str_eqb. rewrite bool_decide_eq_true. split.
  - intros H. exists (drop (length p) s). by rewrite <- H at 1; rewrite take_drop.
  - intros [b ->]. by rewrite take_app_length.
Qed.

(** [needle in s] says that [needle] occurs in [s]. *)
Lemma contains_spec s needle :
  contains s needle = true ↔ ∃ a b, s = a ++ needle ++ b.
Proof.
  induction s as [|c s IH]; simpl; rewrite orb_true_iff, startswith_spec.
  - split.
    + intros [[b H]|?]; [|done]. by exists [], b.
    + intros (a & b & H). left. exists b.
      symmetry in H. apply app_eq_nil in H as [-> H]. by rewrite H.
  - rewrite IH. split.
    + intros [[b H]|(a & b & ->)]; [by exists [], b|]. by exists (c :: a), b.
    + intros ([|c' a] & b & H); [left; by exists b|].
      injection H as <- ->. right. by exists a, b.
Qed.

Lemma sre_lit_inv ml s its pos prev rest mk r :
  sre ml (lit s ++ its) pos prev rest mk = Some r → ∃ rest', rest = s ++ rest'.
Proof.
  revert pos prev rest. induction s as [|c s IH]; intros pos prev rest H.
  - by exists rest.
  - cbn [lit List.map app sre] in H. unfold one at 1 in H.
    destruct rest as [|x rest]; [done|].
    destruct (N.eqb_spec c x) as [<-|]; [|done].
    apply IH in H as [rest' ->]. by exists rest'.
Qed.

(** A field pattern only matches at the start of a line that starts with the
    key. *)
Lemma field_pattern_inv key pos prev rest mk r :
  sre true (field_pattern key) pos prev rest mk = Some r →
  at_bol true prev = true ∧ ∃ rest', rest = key ++ rest'.
Proof.
  unfold field_pattern. cbn [app sre].
  destruct (at_bol true prev); [|done]. intros H. split; [done|].
  by apply sre_lit_inv in H.
Qed.

Lemma contains_cons_false c s needle :
  contains (c :: s) needle = false →
  startswith (c :: s) needle = false ∧ contains s needle = false.
Proof. simpl. by intros ?%orb_false_elim. Qed.

(** A document in which the key occurs nowhere has no such field. *)
Lemma search_field_absent key content :
  contains content key = false →
  re_search true (field_pattern key) content = None.
Proof.
  unfold re_search. generalize 0%nat (@None char).
  induction content as [|c content IH]; intros pos prev H.
  - cbn [search_from].
    destruct (sre true (field_pattern key) pos prev [] no_marks)
      as [r|] eqn:E; [|done].
    apply field_pattern_inv in E as [_ [rest' E]].
    assert (startswith [] key = true) as Hs by (apply startswith_spec; eauto).
    simpl in H. by rewrite Hs in H.
  - apply contains_cons_false in H as [Hs Hc].
    destruct (sre true (field_pattern key) pos prev (c :: content) no_marks)
      as [r|] eqn:E.
    + apply field_pattern_inv in E as [_ [rest' E]].
      assert (startswith (c :: content) key = true) as Hs'
        by (apply startswith_spec; eauto).
      congruence.
    + rewrite search_from_skip by done. by apply IH.
Qed.

(** [sre_field_line] with the value up to the end of the text or of the
    line. *)
Lemma sre_field_line_end key pos prev ws c v tail :
  at_bol true prev = true →
  forallb is_space ws = true →
  is_space c = false →
  forallb any (c :: v) = true →
  at_eol true tail = true →
  let at_value := (pos + length key + length ws)%nat in
  sre true (field_pattern key) pos prev
      (key ++ ws ++ (c :: v) ++ tail) no_marks
  = Some ((at_value + length (c :: v))%nat,
          Marks at_value (at_value + length (c :: v))).
Proof.
  intros Hbol Hws Hc Hv Htail at_value. unfold field_pattern.
  cbn [app sre]. rewrite Hbol, sre_lit. cbn [sre].
  apply andb_prop in Hv as [Hc' Hv].
  assert (match tail with x :: _ => any x = false | [] => True end) as Hstop.
  { destruct tail as [|x tail]; [done|]. simpl in Htail.
    apply andb_prop in Htail as [->%N.eqb_eq _]. done. }
  apply greedy_longest; [done | done |].
  cbn [one app g_close g_open no_marks]. rewrite Hc'.
  rewrite (greedy_longest any _ _ _ v tail _
             ((at_value + S (length v))%nat,
              Marks at_value (at_value + S (length v)))); [done..|].
  rewrite Htail. cbn [g_open]. by rewrite Nat.add_succ_comm.
Qed.

(** Before a line that starts with the key, in a text that does not hold the
    key earlier, the search finds nothing. *)
Lemma search_from_skip_pre key pos prev pre rest :
  LF ∉ key →
  contains pre key = false →
  pre = [] ∨ last pre = Some LF →
  search_from true (field_pattern key) pos prev (pre ++ rest)
  = search_from true (field_pattern key) (pos + length pre)%nat
                (prev_after prev pre) rest.
Proof.
  intros Hkey. revert pos prev.
  induction pre as [|c pre IH]; intros pos prev Hpre Hlast.
  - simpl. by rewrite Nat.add_0_r.
  - destruct Hlast as [|Hlast]; [done|].
    apply contains_cons_false in Hpre as [Hs Hc]. cbn [app].
    destruct (sre true (field_pattern key) pos prev (c :: pre ++ rest)
                no_marks) as [r|] eqn:E.
    { exfalso. apply field_pattern_inv in E as [_ [rest' E]].
      assert ((c :: pre) `prefix_of` key ++ rest') as H1
        by (rewrite <- E; by exists rest).
      assert (key `prefix_of` key ++ rest') as H2 by by exists rest'.
      destruct (prefix_weak_total _ _ _ H1 H2) as [[k Hk]|[k Hk]].
      - apply Hkey. rewrite Hk. apply elem_of_app. left.
        apply list_elem_of_lookup. exists (length pre).
        rewrite <- Hlast. by rewrite last_lookup.
      - assert (startswith (c :: pre) key = true) as Hs'
          by (apply startswith_spec; eauto).
        congruence. }
    rewrite search_from_skip by done.
    rewrite IH; [|done|].
    + by rewrite (prev_after_cons prev), Nat.add_succ_comm.
    + destruct pre as [|d pre]; [by left|]. right.
      by rewrite last_cons_cons in Hlast.
Qed.

Lemma at_bol_after_lines prev pre :
  prev = None → pre = [] ∨ last pre = Some LF →
  at_bol true (prev_after prev pre) = true.
Proof.
  intros -> [->|H]; [done|]. unfold prev_after. by rewrite H.
Qed.

(** X3.  The name the validator reads is the value of the first line that starts
    with [name:]: white space after the colon is skipped, line ends
    included, and the value runs to the end of its line, stripped. *)
Theorem declared_name_first_line pre ws c v tail :
  contains pre (u "name:") = false →
  pre = [] ∨ last pre = Some LF →
  forallb is_space ws = true →
  is_space c = false →
  forallb any (c :: v) = true →
  at_eol true tail = true →
  declared_name (pre ++ u "name:" ++ ws ++ (c :: v) ++ tail)
  = Some (strip (c :: v)).
Proof.
  intros Hpre Hlast Hws Hc Hv Htail. unfold declared_name, re_search, NAME_FIELD.
  rewrite search_from_skip_pre by first [done | by_computation].
  rewrite (search_from_hit _ _ _ _ _ _
             (sre_field_line_end (u "name:") _ _ ws c v tail
                (at_bol_after_lines None pre eq_refl Hlast) Hws Hc Hv Htail)).
  unfold group1. cbn [g_open g_close]. f_equal. f_equal.
  rewrite Nat.add_comm, Nat.add_sub.
  rewrite !(app_assoc _ _ ((c :: v) ++ tail)), (app_assoc pre).
  rewrite drop_app_length'; [by rewrite take_app_length|].
  rewrite !length_app. simpl. lia.
Qed.

Lemma declared_name_first_line_witness :
  declared_name (u "---
" ++ u "name:" ++ u "  " ++ u "my-skill  " ++ u "
description: Fills in forms.
") = Some (u "my-skill").
Proof.
  apply (declared_name_first_line (u "---
") (u "  ") 109 (u "y-skill  ") (u "
description: Fills in forms.
")); vm_compute; auto.
Defined.

(** X4.  A line that starts with [description:] and has a value counts as the
    description wherever it stands in the document. *)
Theorem has_description_any_line pre ws c v tail :
  pre = [] ∨ last pre = Some LF →
  forallb is_space ws = true →
  is_space c = false →
  forallb any (c :: v) = true →
  at_eol true tail = true →
  has_description (pre ++ u "description:" ++ ws ++ (c :: v) ++ tail) = true.
Proof.
  intros Hlast Hws Hc Hv Htail.
  unfold has_description, re_search, DESCRIPTION_FIELD.
  apply bool_decide_eq_true, search_from_later.
  rewrite (sre_field_line_end (u "description:") _ _ ws c v tail
             (at_bol_after_lines None pre eq_refl Hlast) Hws Hc Hv Htail).
  by eexists.
Qed.

Lemma has_description_any_line_witness :
  has_description (u "# Title
Some prose first.
" ++ u "description:" ++ [] ++ u "x" ++ []) = true.
Proof.
  apply (has_description_any_line (u "# Title
Some prose first.
") [] 120 [] []); vm_compute; auto.
Defined.

(** X5.  When the text [name:] occurs nowhere in an entry document that can be
    read, the missing-name finding is reported; likewise for
    [description:]. *)
Theorem absent_fields_reported fs path content :
  read_text fs (path_join path SKILL_MD) = inr content →
  ∃ errors,
    critical fs path = Some errors
    ∧ (contains content (u "name:") = false → MISSING_NAME ∈ errors)
    ∧ (contains content (u "description:") = false →
       MISSING_DESCRIPTION ∈ errors).
Proof.
  intros Hread. unfold critical. rewrite (findings_readable _ _ _ Hread).
  eexists. split; [done|].
  pose proof (metadata_errors_spec (skill_dir_of path) content)
    as (Hn & _ & Hd).
  split; intros H; apply elem_of_app; right.
  - apply Hn. unfold declared_name, NAME_FIELD.
    by rewrite search_field_absent.
  - apply Hd. unfold has_description, DESCRIPTION_FIELD.
    rewrite search_field_absent by done. by apply bool_decide_eq_false_2.
Qed.

Lemma absent_fields_reported_witness :
  ∃ errors,
    critical prose_fs (u "/notes") = Some errors
    ∧ MISSING_NAME ∈ errors ∧ MISSING_DESCRIPTION ∈ errors.
Proof.
  destruct (absent_fields_reported prose_fs (u "/notes") (u "# Notes
Nothing declared here.
")) as (errors & H & Hn & Hd).
  - vm_compute. reflexivity.
  - exists errors. split; [done|].
    split; [apply Hn | apply Hd]; vm_compute; reflexivity.
Defined.

End Fields.

(** ** The search for the skills directory *)

Section Locator.
Import Scaffolder.

Lemma find_parents_upto f m current :
  match List.find f (parents_upto m current) with
  | Some p =>
      ∃ k, (k < m)%nat ∧ p = take k current ∧ f p = true
           ∧ ∀ k', (k < k' < m)%nat → f (take k' current) = false
  | None => ∀ k, (k < m)%nat → f (take k current) = false
  end.
Proof.
  induction m as [|m IH]; [intros k ?; lia|]. cbn [parents_upto List.find].
  destruct (f (take m current)) eqn:Hf.
  - exists m. split_and!; [lia | done | done | intros k' ?; lia].
  - destruct (List.find f (parents_upto m current)) as [p|].
    + destruct IH as (k & Hk & -> & Hp & Hnear). exists k.
      split_and!; [lia | done | done |]. intros k' Hk'.
      destruct (decide (k' = m)) as [->|]; [done|]. apply Hnear. lia.
    + intros k Hk. destruct (decide (k = m)) as [->|]; [done|]. apply IH. lia.
Qed.

Lemma self_and_parents_upto current :
  self_and_parents current = parents_upto (S (length current)) current.
Proof. unfold self_and_parents. cbn [parents_upto]. by rewrite take_ge. Qed.

(** X6.  What the search returns.  It never changes the tree.  When git names a
    project root whose [.github/skills] exists, that directory is returned.
    Otherwise the [.github/skills] of the nearest of the working directory
    and its ancestors that has one is returned.  In both cases nothing is
    printed.  When there is none the warning is printed and the working
    directory is returned. *)
Theorem find_skills_dir_spec git current w :
  ∃ skills_root extra,
    find_skills_dir git current w
    = (inr skills_root, World (tree w) (printed w ++ extra))
    ∧ (∀ git_root,
         git = Some git_root →
         Path_exists (tree w) (git_root ++ SKILLS) = true →
         skills_root = git_root ++ SKILLS ∧ extra = [])
    ∧ ((∀ git_root,
          git = Some git_root →
          Path_exists (tree w) (git_root ++ SKILLS) = false) →
       (∀ k, (k ≤ length current)%nat →
             Path_exists (tree w) (take k current ++ SKILLS) = true →
             (∀ k', (k < k' ≤ length current)%nat →
                    Path_exists (tree w) (take k' current ++ SKILLS) = false) →
             skills_root = take k current ++ SKILLS ∧ extra = [])
       ∧ ((∀ k, (k ≤ length current)%nat →
                Path_exists (tree w) (take k current ++ SKILLS) = false) →
          skills_root = current
          ∧ extra = [Line (u "⚠️  Warning: Could not find .github/skills, creating in current directory.")])).
Proof.
  destruct w as [t out]. cbn [tree printed].
  pose proof (find_parents_upto (λ parent, Path_exists t (parent ++ SKILLS))
                (S (length current)) current) as Hfind.
  rewrite <- self_and_parents_upto in Hfind.
  assert (∃ from_git,
            from_git = match git with
                       | Some git_root =>
                           if Path_exists t (git_root ++ SKILLS)
                           then Some (git_root ++ SKILLS) else None
                       | None => None
                       end) as [from_git Hgit] by by eexists.
  assert (find_skills_dir git current (World t out)
          = match from_git with
            | Some skills_dir => (inr skills_dir, World t out)
            | None =>
                match List.find (λ parent, Path_exists t (parent ++ SKILLS))
                                (self_and_parents current) with
                | Some parent => (inr (parent ++ SKILLS), World t out)
                | None =>
                    (inr current,
                     World t (out ++ [Line (u "⚠️  Warning: Could not find .github/skills, creating in current directory.")]))
                end
            end) as ->.
  { rewrite Hgit. unfold find_skills_dir. rewrite bind_run.
    unfold get_tree. cbn [tree].
    destruct git as [g|]; [destruct (Path_exists t (g ++ SKILLS))|]; try done;
      destruct (List.find _ _); try done. }
  destruct from_git as [skills_dir|].
  - destruct git as [g|]; [|done].
    destruct (Path_exists t (g ++ SKILLS)) eqn:Hg; [|done].
    injection Hgit as ->.
    exists (g ++ SKILLS), []. rewrite app_nil_r. split; [done|]. split.
    + by intros ? [= <-] _.
    + intros Hno. specialize (Hno g eq_refl). congruence.
  - assert (∀ g, git = Some g → Path_exists t (g ++ SKILLS) = false) as Hno.
    { intros g ->. by destruct (Path_exists t (g ++ SKILLS)). }
    destruct (List.find _ _) as [p|].
    + destruct Hfind as (k0 & Hk0 & -> & Hp & Hnear).
      exists (take k0 current ++ SKILLS), []. rewrite app_nil_r.
      split; [done|]. split.
      * intros g Hg Hex. rewrite (Hno g Hg) in Hex. done.
      * intros _. split.
        -- intros k Hk Hex Hknear.
           destruct (Nat.lt_trichotomy k k0) as [Hlt|[->|Hgt]]; [|done|].
           ++ rewrite Hknear in Hp by lia. done.
           ++ rewrite Hnear in Hex by lia. done.
        -- intros Hnone. rewrite Hnone in Hp by lia. done.
    + eexists current, [_]. split; [done|]. split.
      * intros g Hg Hex. rewrite (Hno g Hg) in Hex. done.
      * intros _. split; [|done].
        intros k Hk Hex. rewrite Hfind in Hex by lia. done.
Qed.

End Locator.

(** ** The title of a skill *)

Section Title.
Import Scaffolder.

Lemma join_split c s : join [c] (split c s) = s.
Proof.
  induction s as [|x s IH]; [done|]. cbn [split].
  pose proof (split_not_nil c s) as Hne.
  destruct (N.eqb_spec x c) as [->|Hx];
    destruct (split c s) as [|w ws]; try done.
  - rewrite join_cons_cons. cbn [app]. by rewrite IH.
  - destruct ws as [|w' ws].
    + cbn [join] in *. by rewrite IH.
    + rewrite join_cons_cons in *. cbn [app] in *. by rewrite IH.
Qed.

Lemma split_Forall (P : char → Prop) c s :
  Forall P s → Forall (λ w, Forall P w ∧ c ∉ w) (split c s).
Proof.
  induction 1 as [|x s Hx Hs IH]; simpl.
  - repeat constructor. by intros ?%elem_of_nil.
  - pose proof (split_not_nil c s) as Hne.
    destruct (N.eqb_spec x c) as [->|Hxc].
    + constructor; [|done]. split; [done|]. by intros ?%elem_of_nil.
    + destruct (split c s) as [|w ws]; [done|].
      inversion IH as [|? ? [Hw Hcw] Hws]; subst.
      constructor; [|done]. split; [by constructor|].
      by apply not_elem_of_cons.
Qed.

Lemma map_join {f : char → char} j ws :
  List.map f (join j ws) = join (List.map f j) (List.map (List.map f) ws).
Proof.
  induction ws as [|w ws IH]; [done|].
  destruct ws as [|w' ws]; [done|].
  cbn [List.map] in *. rewrite !join_cons_cons, !List.map_app. by rewrite IH.
Qed.

Lemma length_join_map (f : str → str) j j' ws :
  length j = length j' →
  Forall (λ w, length (f w) = length w) ws →
  length (join j (List.map f ws)) = length (join j' ws).
Proof.
  intros Hj. induction 1 as [|w ws Hw Hws IH]; [done|].
  destruct ws as [|w' ws]; [done|].
  cbn [List.map] in *. rewrite !join_cons_cons, !length_app.
  by rewrite Hw, IH, Hj.
Qed.

Lemma join_Forall (P : char → Prop) j ws :
  Forall P j → Forall (Forall P) ws → Forall P (join j ws).
Proof.
  intros Hj. induction 1 as [|w ws Hw Hws IH]; [done|].
  destruct ws as [|w' ws]; [done|].
  rewrite join_cons_cons. by rewrite !Forall_app.
Qed.

Lemma length_capitalize s : length (capitalize s) = length s.
Proof. destruct s; [done|]. simpl. by rewrite length_map. Qed.

Lemma untitle_capitalize w :
  Forall (λ c, alnum_hyphen c = true) w → hyphen ∉ w →
  List.map untitle (capitalize w) = w.
Proof.
  intros Hall Hhy.
  assert (∀ c, c ∈ w → (97 ≤ c ∧ c ≤ 122) ∨ (48 ≤ c ∧ c ≤ 57)) as Hch.
  { intros c Hc. rewrite Forall_forall in Hall.
    destruct (proj1 (alnum_hyphen_bounds c) (Hall c Hc)) as [?|[?| ->]]; auto.
    done. }
  assert (∀ c, c ∈ w → untitle (lower c) = c ∧ untitle (upper c) = c) as Hun.
  { intros c Hc. specialize (Hch c Hc).
    assert (is_upper c = false) as Hup.
    { unfold is_upper. apply andb_false_iff. rewrite !N.leb_gt. lia. }
    assert (untitle c = c) as Hc1.
    { unfold untitle, lower, space. rewrite Hup.
      destruct (N.eqb_spec c 32); [lia | done]. }
    split; [unfold lower at 1; by rewrite Hup|].
    unfold upper. destruct (is_lower c) eqn:El; [|done].
    apply andb_prop in El as [E1%N.leb_le E2%N.leb_le].
    unfold untitle, lower, is_upper, space.
    destruct (N.eqb_spec (c - 32) 32); [lia|].
    destruct (N.leb_spec 65 (c - 32)); [|lia].
    destruct (N.leb_spec (c - 32) 90); [|lia]. simpl. lia. }
  destruct w as [|c w]; [done|]. cbn [capitalize List.map]. f_equal.
  - apply Hun, list_elem_of_here.
  - rewrite List.map_map. rewrite <- (List.map_id w) at 2.
    apply List.map_ext_in. intros x Hx.
    by apply Hun, list_elem_of_further, list_elem_of_In.
Qed.

(** X7.  For a name of lowercase letters, digits and hyphens the title is as long
    as the name, has no hyphen, and gives the name back when it is
    lower-cased and its spaces are turned into hyphens. *)
Theorem title_case_skill_name_spec name :
  forallb alnum_hyphen name = true →
  length (title_case_skill_name name) = length name
  ∧ (hyphen ∉ title_case_skill_name name)
  ∧ List.map untitle (title_case_skill_name name) = name.
Proof.
  intros Hall. rewrite forallb_forall in Hall.
  assert (Forall (λ c, alnum_hyphen c = true) name) as HF.
  { apply Forall_forall. intros c Hc. by apply Hall, list_elem_of_In. }
  pose proof (split_Forall _ hyphen name HF) as Hwords.
  unfold title_case_skill_name. split_and!.
  - rewrite (length_join_map capitalize [space] [hyphen]); [|done|].
    + by rewrite join_split.
    + apply Forall_forall. intros w _. apply length_capitalize.
  - assert (Forall (λ c, c ≠ hyphen)
              (join [space] (List.map capitalize (split hyphen name)))) as H.
    { apply join_Forall; [by repeat constructor|].
      apply Forall_forall. intros w' (w & <- & Hw)%list_elem_of_In%in_map_iff.
      rewrite Forall_forall in Hwords.
      destruct (Hwords w) as [Hchars Hhy]; [by apply list_elem_of_In|].
      rewrite <- (untitle_capitalize w Hchars Hhy) in Hhy.
      apply Forall_forall. intros c Hc ->. apply Hhy.
      apply list_elem_of_In, in_map_iff. exists hyphen.
      split; [done | by apply list_elem_of_In]. }
    rewrite Forall_forall in H. intros Hin. by apply (H _ Hin).
  - rewrite map_join. change (List.map untitle [space]) with [hyphen].
    rewrite List.map_map. rewrite <- (join_split hyphen name) at 2. f_equal.
    rewrite <- (List.map_id (split hyphen name)) at 2.
    apply List.map_ext_in. intros w Hw. rewrite Forall_forall in Hwords.
    destruct (Hwords w) as [Hchars Hhy]; [by apply list_elem_of_In|].
    by apply untitle_capitalize.
Qed.

Lemma title_case_skill_name_spec_witness :
  length (title_case_skill_name (u "pdf-form-2")) = length (u "pdf-form-2")
  ∧ (hyphen ∉ title_case_skill_name (u "pdf-form-2"))
  ∧ List.map untitle (title_case_skill_name (u "pdf-form-2")) = u "pdf-form-2".
Proof.
  apply (title_case_skill_name_spec (u "pdf-form-2")). vm_compute. reflexivity.
Defined.

End Title.

(** ** More on the tree *)

Lemma beside_below sp r q : beside sp q → beside (sp ++ r) q.
Proof.
  intros [H1 H2]. split.
  - intros [k ->]. apply H1. exists (r ++ k). by rewrite app_assoc.
  - intros H.
    destruct (prefix_weak_total q sp (sp ++ r)) as [?|?];
      [done | by exists r | done | done].
Qed.

(** [make_dirs] leaves the places beside its path as they were. *)
Lemma make_dirs_walk_beside t p t' q :
  make_dirs t p = Some t' → beside p q → walk t' q = walk t q.
Proof.
  revert t t' q. induction p as [|c p IH]; intros t t' q H [Hpq Hqp].
  - destruct Hpq. apply prefix_nil.
  - destruct q as [|d q]; [destruct Hqp; apply prefix_nil|].
    destruct t as [|m]; [done|]. cbn [make_dirs] in H.
    destruct (make_dirs (default (Dir ∅) (m !! c)) p) as [child|] eqn:E;
      [|done].
    cbn [mbind option_bind] in H. injection H as <-. cbn [walk].
    destruct (decide (c = d)) as [<-|Hcd].
    + rewrite lookup_insert_eq. cbn [mbind option_bind].
      rewrite (IH _ _ q E).
      * destruct (m !! c) as [t0|] eqn:Hc; [done|]. cbn [default].
        destruct q as [|e q]; [|by cbn [walk]; rewrite lookup_empty].
        destruct Hqp. apply prefix_cons, prefix_nil.
      * split; intros Hx; [apply Hpq | apply Hqp]; by apply prefix_cons.
    + by rewrite lookup_insert_ne.
Qed.

(** A directory that [make_dirs] had to create is empty. *)
Lemma make_dirs_fresh t p t' :
  walk t p = None ∨ t = Dir ∅ →
  make_dirs t p = Some t' → walk t' p = Some (Dir ∅).
Proof.
  revert t t'. induction p as [|c p IH]; intros t t' Hfresh H.
  - destruct Hfresh as [| ->]; [done|]. by injection H as <-.
  - destruct t as [|m]; [done|]. cbn [make_dirs] in H.
    destruct (make_dirs (default (Dir ∅) (m !! c)) p) as [child|] eqn:E;
      [|done].
    cbn [mbind option_bind] in H. injection H as <-. cbn [walk].
    rewrite lookup_insert_eq. cbn [mbind option_bind].
    apply (λ Hf, IH _ _ Hf E).
    destruct Hfresh as [Hw|[= ->]].
    + cbn [walk] in Hw. destruct (m !! c) as [t0|]; [by left | by right].
    + rewrite lookup_empty. by right.
Qed.

(** Placing an entry in a directory adds it to the entries. *)
Lemma place_in_dir t p m c n t' :
  walk t p = Some (Dir m) →
  place t (p ++ [c]) n = Some t' →
  walk t' p = Some (Dir (<[c := n]> m)).
Proof.
  revert t t'. induction p as [|d p IH]; intros t t' Hw H.
  - injection Hw as ->. cbn [app] in H. rewrite place_cons in H.
    by injection H as <-.
  - destruct t as [|m0]; [done|]. cbn [walk] in Hw. cbn [app] in H.
    apply place_cons_inv in H as [[Hp _]|(_ & child & child' & Hc & H & ->)].
    { by destruct p. }
    rewrite Hc in Hw. cbn [mbind option_bind] in Hw. cbn [walk].
    rewrite lookup_insert_eq. cbn [mbind option_bind]. by apply (IH child).
Qed.

(** Placing an entry succeeds in a directory. *)
Lemma place_in_dir_Some t p c n :
  is_dir_node (walk t p) = true → is_Some (place t (p ++ [c]) n).
Proof.
  revert t. induction p as [|d p IH]; intros t Hdir.
  - destruct t as [|m]; [done|]. by eexists.
  - destruct t as [|m]; [done|]. cbn [walk] in Hdir. cbn [app].
    rewrite place_cons. destruct (m !! d) as [child|] eqn:Hd; [|done].
    cbn [mbind option_bind] in *.
    destruct (IH child Hdir) as [child' ->].
    destruct p; by eexists.
Qed.

(** A directory stays one when something is placed elsewhere than at it or
    above it. *)
Lemma place_keeps_dir t p n t' q :
  place t p n = Some t' → ¬ p `prefix_of` q →
  is_dir_node (walk t q) = true → is_dir_node (walk t' q) = true.
Proof.
  intros H Hpq Hdir. destruct (decide (q `prefix_of` p)) as [Hqp|Hqp].
  - apply (place_walk_above _ _ _ _ _ H Hqp). intros ->. by apply Hpq.
  - by rewrite (place_walk_beside _ _ _ _ _ H Hpq Hqp).
Qed.

(** ** The three operations of the scaffolder on one path *)

(** Each of them leaves the tree as it is or places one node at, or makes
    the directories down to, its path. *)
Lemma run_op_cases o t p t' :
  run_op o t p = inr t' →
  t' = t ∨ (∃ n, place t p n = Some t') ∨ make_dirs t p = Some t'.
Proof.
  destruct o as [parents exist_ok|s|]; cbn [run_op];
    unfold Path_mkdir, Path_write_text, Path_chmod_755, store; intros H.
  - destruct (walk t p) as [n|].
    + destruct (_ && _); [|done]. left. by injection H as <-.
    + destruct parents.
      * destruct (make_dirs t p) as [t1|] eqn:E; [|done].
        right. right. by injection H as <-.
      * destruct (place t p (Dir ∅)) as [t1|] eqn:E; [|done].
        right. left. exists (Dir ∅). by injection H as <-.
  - destruct (walk t p) as [[d x|m]|]; [| done |];
      destruct (place t p _) as [t1|] eqn:E; try done;
      right; left; eexists; by injection H as <-.
  - destruct (walk t p) as [[d x|m]|]; [| |done].
    + destruct (place t p _) as [t1|] eqn:E; [|done].
      right. left. eexists. by injection H as <-.
    + left. by injection H as <-.
Qed.

Lemma run_op_beside o t p t' q :
  run_op o t p = inr t' → beside p q → walk t' q = walk t q.
Proof.
  intros H Hb. destruct (run_op_cases _ _ _ _ H) as [->|[[n Hp]|Hm]].
  - done.
  - destruct Hb. by apply (place_walk_beside _ _ _ _ _ Hp).
  - by apply (make_dirs_walk_beside _ _ _ _ Hm).
Qed.

Lemma run_op_keeps_dir o t p t' q :
  run_op o t p = inr t' → ¬ p `prefix_of` q →
  is_dir_node (walk t q) = true → is_dir_node (walk t' q) = true.
Proof.
  intros H Hpq Hdir. destruct (run_op_cases _ _ _ _ H) as [->|[[n Hp]|Hm]].
  - done.
  - by apply (place_keeps_dir _ _ _ _ _ Hp).
  - destruct (decide (q `prefix_of` p)) as [Hqp|Hqp].
    + by apply (make_dirs_walk _ _ _ _ Hm).
    + by rewrite (make_dirs_walk_beside _ _ _ _ Hm).
Qed.

(** A successful [mkdir] leaves a directory; a successful [write_text] a
    file with the text; a successful [chmod] keeps the contents of a file
    and makes it executable. *)
Lemma Path_mkdir_dir t p parents t' :
  Path_mkdir t p parents true = inr t' → is_dir_node (walk t' p) = true.
Proof.
  unfold Path_mkdir, store. intros H.
  destruct (walk t p) as [n|] eqn:Hw.
  - destruct n as [|m]; [done|]. cbn in H. injection H as <-. by rewrite Hw.
  - destruct parents.
    + destruct (make_dirs t p) as [t1|] eqn:E; [|done]. injection H as <-.
      by apply (make_dirs_walk _ _ _ _ E).
    + destruct (place t p (Dir ∅)) as [t1|] eqn:E; [|done]. injection H as <-.
      by rewrite (place_walk _ _ _ _ E).
Qed.

Lemma Path_write_text_file t p s t' :
  Path_write_text t p s = inr t' →
  ∃ x, walk t' p = Some (File (Text s) x)
       ∧ (walk t p = None → x = false).
Proof.
  unfold Path_write_text, store. intros H.
  destruct (walk t p) as [[d x|m]|]; [| done |];
    destruct (place t p _) as [t1|] eqn:E; try done; injection H as <-;
    eexists; (split; [by apply (place_walk _ _ _ _ E) | done]).
Qed.

Lemma Path_chmod_file t p d x t' :
  walk t p = Some (File d x) →
  Path_chmod_755 t p = inr t' → walk t' p = Some (File d true).
Proof.
  unfold Path_chmod_755, store. intros ->.
  destruct (place t p _) as [t1|] eqn:E; [|done]. intros [= <-].
  by apply (place_walk _ _ _ _ E).
Qed.

(** ** How the scaffolder ends *)

Section ErrorLines.












End ErrorLines.

Section ScaffolderEnds.
Import Scaffolder.

Variables EXAMPLE_SCRIPT_TEMPLATE EXAMPLE_REFERENCE_TEMPLATE : template.
Variable ASSETS_README_TEMPLATE : str.






End ScaffolderEnds.

(** ** What the scaffolder writes, and where *)

Section Layout.
Import Validator Scaffolder.

Variables EXAMPLE_SCRIPT_TEMPLATE EXAMPLE_REFERENCE_TEMPLATE : template.
Variable ASSETS_README_TEMPLATE : str.

Abbreviation body :=
  (scaffold_skill_body EXAMPLE_SCRIPT_TEMPLATE EXAMPLE_REFERENCE_TEMPLATE
                       ASSETS_README_TEMPLATE).
Abbreviation resources :=
  (create_resources EXAMPLE_SCRIPT_TEMPLATE EXAMPLE_REFERENCE_TEMPLATE
                    ASSETS_README_TEMPLATE).

Lemma on_tree_bind_inv {B} op (f : () → proc B) w r w' :
  (on_tree op ≫= f) w = (inr r, w') →
  ∃ t', op (tree w) = inr t' ∧ f () (World t' (printed w)) = (inr r, w').
Proof.
  rewrite bind_run. unfold on_tree.
  destruct (op (tree w)) as [e|t']; [done|]. intros H. by exists t'.
Qed.

Lemma print_bind_inv {B} s (f : () → proc B) w r w' :
  (print s ≫= f) w = (inr r, w') →
  f () (World (tree w) (printed w ++ [Line s])) = (inr r, w').
Proof. by rewrite bind_run. Qed.

Lemma print_next_steps_preserves P sp name simple_mode :
  preserves P (print_next_steps sp name simple_mode).
Proof.
  unfold print_next_steps. destruct simple_mode; cbn [negb];
    repeat first [ apply preserves_print | apply preserves_bind; [|intros ?] ].
Qed.

(** Printing does not change the tree. *)
Lemma print_next_steps_tree sp name simple_mode w r w' :
  print_next_steps sp name simple_mode w = (r, w') → tree w' = tree w.
Proof.
  intros H.
  by apply (print_next_steps_preserves (λ t, t = tree w) sp name simple_mode
              w r w' H).
Qed.

(** The steps of a run that returns. *)
Lemma scaffold_trace git current name simple_mode w r w' :
  body git current name simple_mode w = (inr r, w') →
  ∃ skills_root extra t1 t2,
    name_rule name = true
    ∧ find_skills_dir git current w
      = (inr skills_root, World (tree w) (printed w ++ extra))
    ∧ walk (tree w) (skills_root ++ [name]) = None
    ∧ make_dirs (tree w) (skills_root ++ [name]) = Some t1
    ∧ Path_write_text t1 ((skills_root ++ [name]) ++ [SKILL_MD])
        (format SKILL_MD_TEMPLATE name (title_case_skill_name name))
      = inr t2
    ∧ if simple_mode then tree w' = t2
      else ∃ out w3,
             resources (skills_root ++ [name]) name
               (title_case_skill_name name) (World t2 out) = (inr (), w3)
             ∧ tree w' = tree w3.
Proof.
  unfold scaffold_skill_body. destruct (name_rule name); cbn [negb].
  2:{ by rewrite !bind_run. }
  intros H.
  destruct (find_skills_dir_pure git current w) as (skills_root & extra & E).
  rewrite bind_run, E, bind_run in H. unfold get_tree at 1 in H.
  cbn [tree] in H.
  destruct (Path_exists (tree w) (skills_root ++ [name])) eqn:Hex.
  { by rewrite bind_run in H. }
  rewrite bind_run in H.
  match type of H with
  | match ?step ?w1 with _ => _ end = _ =>
      destruct (step w1) as [[e|[]] w2] eqn:E1
  end; [done|].
  apply guarded_step in E1 as (t1 & Hmk & ->).
  rewrite bind_run in H.
  match type of H with
  | match ?step ?w1 with _ => _ end = _ =>
      destruct (step w1) as [[e|[]] w3] eqn:E2
  end; [done|].
  apply guarded_step in E2 as (t2 & Hwr & ->).
  cbn [tree printed] in *.
  assert (walk (tree w) (skills_root ++ [name]) = None) as Hw.
  { unfold Path_exists in Hex.
    destruct (walk (tree w) (skills_root ++ [name])); [|done].
    rewrite bool_decide_eq_true_2 in Hex; [done | by eexists]. }
  unfold Path_mkdir in Hmk. rewrite Hw in Hmk.
  destruct (make_dirs (tree w) (skills_root ++ [name])) as [t1'|] eqn:Hmd;
    [|done].
  injection Hmk as ->.
  exists skills_root, extra, t1, t2. split_and!; try done.
  rewrite bind_run in H. destruct simple_mode; cbn [negb] in H.
  - unfold print at 1 in H. cbn [tree printed] in H.
    by apply print_next_steps_tree in H.
  - match type of H with
    | match try_except ?b ?h ?w4 with _ => _ end = _ =>
        unfold try_except in H; destruct (b w4) as [[[c|e]|[]] w5] eqn:E3
    end.
    + done.
    + by rewrite bind_run in H.
    + apply print_next_steps_tree in H. eauto.
Qed.

(** Placing below [sp] is placing within the subtree at [sp]; so is making
    directories below it. *)
Lemma place_below t sp n0 r n t' :
  walk t sp = Some n0 → place t (sp ++ r) n = Some t' →
  ∃ n0', place n0 r n = Some n0' ∧ walk t' sp = Some n0'.
Proof.
  revert t t'. induction sp as [|d sp IH]; intros t t' Hw H.
  - injection Hw as ->. by exists t'.
  - destruct t as [|m]; [done|]. cbn [walk] in Hw. cbn [app] in H.
    destruct (m !! d) as [child|] eqn:Hd; [|done].
    cbn [mbind option_bind] in Hw.
    apply place_cons_inv in H as [[Hnil ->]|(_ & c & c' & Hc & H & ->)].
    + apply app_eq_nil in Hnil as [-> ->]. injection Hw as ->.
      exists n. split; [done|]. cbn [walk]. by rewrite lookup_insert_eq.
    + rewrite Hd in Hc. injection Hc as <-.
      destruct (IH _ _ Hw H) as (n0' & ? & ?). exists n0'. split; [done|].
      cbn [walk]. by rewrite lookup_insert_eq.
Qed.

Lemma make_dirs_below t sp n0 r t' :
  walk t sp = Some n0 → make_dirs t (sp ++ r) = Some t' →
  ∃ n0', make_dirs n0 r = Some n0' ∧ walk t' sp = Some n0'.
Proof.
  revert t t'. induction sp as [|d sp IH]; intros t t' Hw H.
  - injection Hw as ->. by exists t'.
  - destruct t as [|m]; [done|]. cbn [walk] in Hw. cbn [app make_dirs] in H.
    destruct (m !! d) as [child|] eqn:Hd; [|done].
    cbn [mbind option_bind from_option id] in Hw, H. unfold id in H.
    destruct (make_dirs child (sp ++ r)) as [c'|] eqn:E; [|done].
    cbn [mbind option_bind] in H. injection H as <-.
    destruct (IH _ _ Hw E) as (n0' & ? & ?). exists n0'. split; [done|].
    cbn [walk]. by rewrite lookup_insert_eq.
Qed.

(** A step of the scaffolder below [sp] that succeeds is that step on the
    subtree at [sp]. *)
Lemma run_op_below o t sp n0 r t' :
  walk t sp = Some n0 → run_op o t (sp ++ r) = inr t' →
  ∃ n0', run_op o n0 r = inr n0' ∧ walk t' sp = Some n0'.
Proof.
  intros Hw.
  destruct o as [parents exist_ok|s|]; cbn [run_op];
    unfold Path_mkdir, Path_write_text, Path_chmod_755, store;
    rewrite walk_app, Hw; cbn [mbind option_bind].
  - destruct (walk n0 r) as [n|].
    + destruct (_ && _); [|done]. intros [= <-]. by exists n0.
    + destruct parents.
      * destruct (make_dirs t (sp ++ r)) as [t1|] eqn:E; [|done].
        intros [= <-].
        destruct (make_dirs_below _ _ _ _ _ Hw E) as (n0' & -> & ?).
        by exists n0'.
      * destruct (place t (sp ++ r) (Dir ∅)) as [t1|] eqn:E; [|done].
        intros [= <-].
        destruct (place_below _ _ _ _ _ _ Hw E) as (n0' & -> & ?).
        by exists n0'.
  - destruct (walk n0 r) as [[d x|m]|]; [| done |];
      destruct (place t (sp ++ r) _) as [t1|] eqn:E; try done;
      intros [= <-];
      destruct (place_below _ _ _ _ _ _ Hw E) as (n0' & -> & ?);
      by exists n0'.
  - destruct (walk n0 r) as [[d x|m]|]; [| |done].
    + destruct (place t (sp ++ r) _) as [t1|] eqn:E; [|done].
      intros [= <-].
      destruct (place_below _ _ _ _ _ _ Hw E) as (n0' & -> & ?).
      by exists n0'.
    + intros [= <-]. by exists n0.
Qed.

(** One step of the sequence of [create_resources], seen from the package
    directory. *)
Ltac package_step o H Hw :=
  let t := fresh "t" in
  let n := fresh "n" in
  let E := fresh "E" in
  let Hop := fresh "Hop" in
  apply on_tree_bind_inv in H as (t & Hop & H);
  rewrite <- ?app_assoc in Hop; cbn [app] in Hop;
  apply (run_op_below o _ _ _ _ _ Hw) in Hop as (n & E & Hop);
  vm_compute in E; injection E as <-;
  clear Hw; rename Hop into Hw; cbn [tree printed] in H.

(** What [create_resources] leaves in a package directory that held the
    entry document only. *)
Lemma create_resources_layout sp name title w w3 skill_md :
  walk (tree w) sp = Some (dir [("SKILL.md"%string, skill_md)]) →
  resources sp name title w = (inr (), w3) →
  walk (tree w3) sp
  = Some (dir [
      ("SKILL.md"%string, skill_md);
      ("scripts"%string, dir [
         ("example.py"%string,
          File (Text (format EXAMPLE_SCRIPT_TEMPLATE name title)) true)]);
      ("references"%string, dir [
         ("example_reference.md"%string,
          text_file (format EXAMPLE_REFERENCE_TEMPLATE name title))]);
      ("assets"%string, dir [
         ("README.md"%string, text_file ASSETS_README_TEMPLATE)])]).
Proof.
  unfold create_resources.
  generalize (format EXAMPLE_SCRIPT_TEMPLATE name title),
             (format EXAMPLE_REFERENCE_TEMPLATE name title).
  intros s1 s2 Hw H.
  package_step (Mkdir false true) H Hw.
  package_step (WriteText s1) H Hw.
  package_step Chmod755 H Hw.
  apply print_bind_inv in H. cbn [tree printed] in H.
  package_step (Mkdir false true) H Hw.
  package_step (WriteText s2) H Hw.
  apply print_bind_inv in H. cbn [tree printed] in H.
  package_step (Mkdir false true) H Hw.
  package_step (WriteText ASSETS_README_TEMPLATE) H Hw.
  injection H as <-. cbn [tree]. rewrite Hw. by vm_compute.
Qed.

End Layout.

(** ** What a run leaves alone, and the package it leaves *)

Section Package.
Import Validator Scaffolder.

Variables EXAMPLE_SCRIPT_TEMPLATE EXAMPLE_REFERENCE_TEMPLATE : template.
Variable ASSETS_README_TEMPLATE : str.

Abbreviation scaffold :=
  (scaffold_skill EXAMPLE_SCRIPT_TEMPLATE EXAMPLE_REFERENCE_TEMPLATE
                  ASSETS_README_TEMPLATE).

Abbreviation scaffold_body :=
  (scaffold_skill_body EXAMPLE_SCRIPT_TEMPLATE EXAMPLE_REFERENCE_TEMPLATE
                       ASSETS_README_TEMPLATE).

Abbreviation kept q v := (λ t : node, walk t q = v).

(** The package directory of [name] as the script builds it: the entry
    document, and in full mode the three resource directories with one
    example each. *)
Abbreviation built name simple_mode :=
  (dir (("SKILL.md"%string,
         text_file (format SKILL_MD_TEMPLATE name
                           (title_case_skill_name name)))
        :: if simple_mode then []
           else [("scripts"%string, dir [
                    ("example.py"%string,
                     File (Text (format EXAMPLE_SCRIPT_TEMPLATE name
                                        (title_case_skill_name name)))
                          true)]);
                 ("references"%string, dir [
                    ("example_reference.md"%string,
                     text_file (format EXAMPLE_REFERENCE_TEMPLATE name
                                       (title_case_skill_name name)))]);
                 ("assets"%string, dir [
                    ("README.md"%string,
                     text_file ASSETS_README_TEMPLATE)])])).

Lemma preserves_get_tree P : preserves P get_tree.
Proof. intros w r w' [= _ <-]. done. Qed.

Lemma frame_op q v o p :
  beside p q → preserves (kept q v) (on_tree (λ t, run_op o t p)).
Proof.
  intros Hb. apply preserves_on_tree. intros t t' H <-.
  by apply (run_op_beside _ _ _ _ _ H).
Qed.

Ltac solve_beside := repeat first [ assumption | apply beside_below ].

Ltac frame_step :=
  first
    [ apply preserves_print
    | apply preserves_print_exn
    | apply preserves_sys_exit
    | apply preserves_get_tree
    | apply (frame_op _ _ (Mkdir _ _)); solve [solve_beside]
    | apply (frame_op _ _ (WriteText _)); solve [solve_beside]
    | apply (frame_op _ _ Chmod755); solve [solve_beside]
    | apply preserves_try_except; [|intros ?]
    | apply preserves_bind; [|intros ?] ].

Ltac by_frame q v H Hv :=
  match type of H with
  | ?m ?w0 = _ =>
      let Hk := fresh "Hk" in
      assert (preserves (kept q v) m) as Hk;
      [ | exact (Hk _ _ _ H Hv) ]
  end.

Lemma scaffold_body_frame q v git current name simple_mode skills_root
    w1 w r w' :
  find_skills_dir git current w = (inr skills_root, w1) →
  beside (skills_root ++ [name]) q →
  walk (tree w) q = v →
  scaffold_body git current name simple_mode w = (r, w') →
  walk (tree w') q = v.
Proof.
  intros Hfind Hb Hv. unfold scaffold_skill_body.
  destruct (name_rule name); cbn [negb]; intros H.
  2:{ by_frame q v H Hv. repeat frame_step. }
  destruct (find_skills_dir_pure git current w) as (sr & extra & E).
  rewrite E in Hfind. injection Hfind as -> _.
  rewrite bind_run, E in H. cbv beta iota in H.
  by_frame q v H Hv.
  cbv zeta. unfold create_resources, print_next_steps.
  apply preserves_bind; [apply preserves_get_tree | intros t].
  destruct (Path_exists t _); [repeat frame_step|].
  destruct simple_mode; cbn [negb]; repeat frame_step.
Qed.

(** X10.  Whatever the name, the mode and the ending of the run, a place that is
    neither inside the package path nor on the way to it is after the run
    as it was before. *)
Theorem scaffold_frame git fs name simple_mode skills_root w q :
  find_skills_dir git (cwd fs) (World (root fs) []) = (inr skills_root, w) →
  beside (skills_root ++ [name]) q →
  walk (root (fst (scaffold git fs name simple_mode))) q = walk (root fs) q.
Proof.
  intros Hfind Hb. unfold scaffold_skill, execute.
  destruct (scaffold_skill_body _ _ _ git (cwd fs) name simple_mode
              (World (root fs) [])) as [[[code|e]|[]] w'] eqn:E;
    cbn [fst root];
    by apply (scaffold_body_frame _ _ _ _ _ _ _ _ _ _ _ Hfind Hb eq_refl E).
Qed.

Lemma scaffold_body_layout git current name simple_mode skills_root
    w1 w r w' :
  scaffold_body git current name simple_mode w = (inr r, w') →
  find_skills_dir git current w = (inr skills_root, w1) →
  walk (tree w') (skills_root ++ [name]) = Some (built name simple_mode).
Proof.
  intros E Hfind.
  apply scaffold_trace in E
    as (sr & extra & t1 & t2 & _ & Hfind' & Hnone & Hmk & Hwr & Hrest).
  rewrite Hfind in Hfind'. injection Hfind' as <- _.
  pose proof (make_dirs_fresh _ _ _ (or_introl Hnone) Hmk) as Hw1.
  apply (run_op_below (WriteText _) _ _ _ _ _ Hw1) in Hwr as (n & E2 & Hw2).
  revert E2 Hw2.
  generalize (format SKILL_MD_TEMPLATE name (title_case_skill_name name)).
  intros c E2 Hw2. vm_compute in E2. injection E2 as <-.
  destruct simple_mode.
  - rewrite Hrest, Hw2. by vm_compute.
  - destruct Hrest as (out & w3 & Hres & ->).
    assert (walk (tree (World t2 out)) (skills_root ++ [name])
            = Some (dir [("SKILL.md"%string, text_file c)])) as Hw2'.
    { cbn [tree]. rewrite Hw2. by vm_compute. }
    by rewrite (create_resources_layout _ _ _ _ _ _ _ _ _ Hw2' Hres).
Qed.

(** X11.  After a run that returns, the package directory holds the entry
    document with the rendered template and nothing else in simple mode; in
    full mode it holds besides that [scripts/example.py], executable,
    [references/example_reference.md] and [assets/README.md] with their
    texts, and nothing else. *)
Theorem scaffold_layout git fs name simple_mode skills_root w :
  ended (snd (scaffold git fs name simple_mode)) = Returned →
  find_skills_dir git (cwd fs) (World (root fs) []) = (inr skills_root, w) →
  walk (root (fst (scaffold git fs name simple_mode))) (skills_root ++ [name])
  = Some (built name simple_mode).
Proof.
  unfold scaffold_skill, execute.
  destruct (scaffold_skill_body _ _ _ git (cwd fs) name simple_mode
              (World (root fs) [])) as [[[code|e]|[]] w'] eqn:E; try done.
  intros _ Hfind. cbn [fst root].
  by apply (scaffold_body_layout _ _ _ _ _ _ _ _ _ E Hfind).
Qed.

End Package.

(** ** What a run that returns has found *)

Section Returns.
Import Validator Scaffolder.

Variables EXAMPLE_SCRIPT_TEMPLATE EXAMPLE_REFERENCE_TEMPLATE : template.
Variable ASSETS_README_TEMPLATE : str.

(** [make_dirs] succeeds exactly when no file is on the way. *)
Lemma make_dirs_is_Some t p :
  is_Some (make_dirs t p) ↔
  ∀ q d x, q `prefix_of` p → walk t q ≠ Some (File d x).
Proof.
  revert t. induction p as [|c p IH]; intros t.
  - destruct t as [d x|m]; cbn [make_dirs]; split.
    + by intros [? ?].
    + intros H. by destruct (H [] d x (prefix_nil _)).
    + by intros _ q d x ->%prefix_nil_inv.
    + intros _. by eexists.
  - destruct t as [d x|m]; cbn [make_dirs].
    { split; [by intros [? ?]|].
      intros H. by destruct (H [] d x (prefix_nil _)). }
    split.
    + intros [t' H] q d x Hq. destruct q as [|c' q]; [done|].
      pose proof (prefix_cons_inv_1 _ _ _ _ Hq) as ->.
      apply prefix_cons_inv_2 in Hq. cbn [walk].
      destruct (m !! c) as [child|] eqn:Hc; [|done].
      cbn [mbind option_bind from_option id] in *. unfold id in H.
      destruct (make_dirs child p) as [child'|] eqn:E; [|done].
      apply (proj1 (IH child)); [by eexists | done].
    + intros H.
      destruct (proj2 (IH (default (Dir ∅) (m !! c)))) as [child' ->];
        [|by eexists].
      intros q d x Hq. destruct (m !! c) as [child|] eqn:Hc.
      * specialize (H (c :: q) d x (prefix_cons _ _ _ Hq)).
        cbn [walk] in H. by rewrite Hc in H.
      * destruct q as [|e q]; [done|]. cbn [walk from_option].
        by rewrite lookup_empty.
Qed.

(** X13.  A run returns only if the name passed the naming check, nothing
    existed at the package path and no file was on the way to it. *)
Theorem scaffold_returns_only_if git fs name simple_mode skills_root w :
  find_skills_dir git (cwd fs) (World (root fs) []) = (inr skills_root, w) →
  ended (snd (scaffold_skill EXAMPLE_SCRIPT_TEMPLATE
                EXAMPLE_REFERENCE_TEMPLATE ASSETS_README_TEMPLATE
                git fs name simple_mode)) = Returned →
  name_rule name = true
  ∧ walk (root fs) (skills_root ++ [name]) = None
  ∧ ∀ q d x, q `prefix_of` skills_root →
             walk (root fs) q ≠ Some (File d x).
Proof.
  intros Hfind. unfold scaffold_skill, execute.
  destruct (scaffold_skill_body _ _ _ git (cwd fs) name simple_mode
              (World (root fs) [])) as [[[code|e]|[]] w'] eqn:E; try done.
  intros _.
  apply scaffold_trace in E
    as (sr & extra & t1 & t2 & Hname & Hfind' & Hnone & Hmk & _).
  cbn [tree printed] in *.
  rewrite Hfind in Hfind'. injection Hfind' as <- _.
  split_and!; [done | done |]. intros q d x Hq.
  apply (proj1 (make_dirs_is_Some (root fs) (skills_root ++ [name])));
    [by eexists | by apply prefix_app_r].
Qed.

End Returns.

(** ** The validator on a package the scaffolder has just built *)

Section Report.
Import Validator Scaffolder.

Variables EXAMPLE_SCRIPT_TEMPLATE EXAMPLE_REFERENCE_TEMPLATE : template.
Variable ASSETS_README_TEMPLATE : str.

Lemma findings_advisories fs path errors warnings :
  findings fs path = inr (errors, warnings) → warnings = advisories fs path.
Proof.
  unfold findings.
  destruct (os_path_exists fs (path_join path SKILL_MD)); cbn [negb].
  - destruct (read_text fs (path_join path SKILL_MD)); [done|].
    by intros [= _ <-].
  - by intros [= _ <-].
Qed.

(** An entry of a package directory, looked up through the path string. *)
Lemma stat_in_package fs sp x :
  sp ≠ [] → Forall proper_name sp → proper_name x →
  (∀ q, q `prefix_of` sp → is_dir_node (walk (root fs) q) = true) →
  stat fs (path_join (Path_str sp) x) = walk (root fs) (sp ++ [x]).
Proof.
  intros Hne Hsp Hx Hdirs. rewrite path_join_Path_str by done.
  unfold stat. rewrite locate_Path_str; [done | by destruct sp | |].
  - apply Forall_app. split; [done|]. by constructor.
  - intros q' [k Hk] Hq'. apply Hdirs.
    destruct k as [|s k _] using rev_ind.
    { by rewrite app_nil_r in Hk. }
    rewrite app_assoc in Hk. apply app_inj_tail in Hk as [-> _].
    by apply prefix_app_r.
Qed.

(** X12.  For a legal identifier and a run of the scaffolder that returns, the
    validator run on the package path reaches its report with no CRITICAL
    finding; it has no ADVISORY finding either after a full run, and both
    of them, the one on [references/] first, after a run in simple mode. *)
Theorem scaffold_then_validate git fs name simple_mode :
  legal_identifier name = true →
  Forall proper_name (cwd fs) →
  (∀ git_root, git = Some git_root → Forall proper_name git_root) →
  ended (snd (scaffold_skill EXAMPLE_SCRIPT_TEMPLATE
                EXAMPLE_REFERENCE_TEMPLATE ASSETS_README_TEMPLATE
                git fs name simple_mode)) = Returned →
  findings (fst (scaffold_skill EXAMPLE_SCRIPT_TEMPLATE
                   EXAMPLE_REFERENCE_TEMPLATE ASSETS_README_TEMPLATE
                   git fs name simple_mode))
           (skill_path_of git fs name)
  = inr ([], if simple_mode then [NO_REFERENCES; NO_SCRIPTS] else []).
Proof.
  intros Hlegal Hcwd Hgit Hret.
  pose proof (roundtrip_legal_identifier _ _ _ git fs name simple_mode
                Hlegal Hcwd Hgit Hret) as Hcrit.
  apply critical_findings in Hcrit as [ws Hf]. rewrite Hf.
  apply findings_advisories in Hf as ->. do 2 f_equal.
  revert Hret. unfold scaffold_skill, execute.
  destruct (scaffold_skill_body _ _ _ git (cwd fs) name simple_mode
              (World (root fs) [])) as [[[code|e]|[]] w'] eqn:E; try done.
  intros _. cbn [fst].
  destruct (find_skills_dir_pure git (cwd fs) (World (root fs) []))
    as (sr & extra & Hfind).
  pose proof (scaffold_body_layout _ _ _ _ _ _ _ _ _ _ _ _ E Hfind) as Hlay.
  apply scaffold_success in E as (_ & sr' & extra' & Hfind' & Hdirs & _).
  rewrite Hfind in Hfind'. injection Hfind' as <- _.
  unfold skill_path_of. rewrite Hfind.
  pose proof (find_skills_dir_proper _ _ _ _ _ Hcwd Hgit Hfind) as Hroot.
  destruct (legal_identifier_proper name Hlegal) as [Hproper _].
  assert (Forall proper_name (sr ++ [name])) as Hsp.
  { apply Forall_app. split; [done | by constructor]. }
  assert (sr ++ [name] ≠ []) as Hne by (by destruct sr).
  unfold advisories, os_path_isdir.
  rewrite !stat_in_package
    by first [ assumption | repeat split; by_computation ].
  cbn [root]. rewrite !(walk_app _ (sr ++ [name])), Hlay.
  destruct simple_mode; by vm_compute.
Qed.

End Report.

(** ** The scaffolder theorems on the sample trees *)

Section ScaffolderOnSamples.
Import Validator Scaffolder.

Lemma scaffold_twice_witness :
  let fs1 :=
    fst (scaffold_skill [] [] [] None project_fs (u "pdf-filler") false) in
  scaffold_skill [] [] [] None fs1 (u "pdf-filler") true =
    (fs1,
     Run (printed (World (root fs1) [])
          ++ [Line (u "❌ Error: Skill directory already exists: "
                      ++ Path_str ([u "repo"; u ".github"; u "skills"]
                                   ++ [u "pdf-filler"]))])
         (Exited 1)).
Proof.
  apply (scaffold_twice [] [] [] None project_fs (u "pdf-filler") false true
           [u "repo"; u ".github"; u "skills"]
           (World (root project_fs) []));
    vm_compute; reflexivity.
Defined.

Lemma scaffold_frame_witness :
  walk (root (fst (scaffold_skill [] [] [] None sample_fs (u "new-skill")
                     false)))
       [u "work"; u "valid-skill"; u "SKILL.md"]
  = walk (root sample_fs) [u "work"; u "valid-skill"; u "SKILL.md"].
Proof.
  apply (scaffold_frame [] [] [] None sample_fs (u "new-skill") false
           [u "work"]
           (snd (find_skills_dir None (cwd sample_fs)
                   (World (root sample_fs) [])))).
  - vm_compute. reflexivity.
  - split; by_computation.
Defined.

Lemma scaffold_layout_witness :
  walk (root (fst (scaffold_skill [] [] [] None project_fs (u "pdf-filler")
                     false)))
       ([u "repo"; u ".github"; u "skills"] ++ [u "pdf-filler"])
  = Some (dir [
      ("SKILL.md"%string,
       text_file (format SKILL_MD_TEMPLATE (u "pdf-filler")
                         (title_case_skill_name (u "pdf-filler"))));
      ("scripts"%string, dir [
         ("example.py"%string,
          File (Text (format [] (u "pdf-filler")
                             (title_case_skill_name (u "pdf-filler"))))
               true)]);
      ("references"%string, dir [
         ("example_reference.md"%string,
          text_file (format [] (u "pdf-filler")
                            (title_case_skill_name (u "pdf-filler"))))]);
      ("assets"%string, dir [("README.md"%string, text_file [])])]).
Proof.
  apply (scaffold_layout [] [] [] None project_fs (u "pdf-filler") false
           [u "repo"; u ".github"; u "skills"]
           (World (root project_fs) []));
    vm_compute; reflexivity.
Defined.

Lemma scaffold_then_validate_witness :
  findings (fst (scaffold_skill [] [] [] None project_fs (u "pdf-filler")
                   false))
           (skill_path_of None project_fs (u "pdf-filler"))
  = inr ([], []).
Proof.
  apply (scaffold_then_validate [] [] [] None project_fs (u "pdf-filler")
           false).
  - vm_compute. reflexivity.
  - repeat constructor; by_computation.
  - intros git_root H. discriminate H.
  - vm_compute. reflexivity.
Defined.

Lemma scaffold_returns_only_if_witness :
  name_rule (u "pdf-filler") = true
  ∧ walk (root project_fs)
         ([u "repo"; u ".github"; u "skills"] ++ [u "pdf-filler"]) = None
  ∧ ∀ q d x, q `prefix_of` [u "repo"; u ".github"; u "skills"] →
             walk (root project_fs) q ≠ Some (File d x).
Proof.
  apply (scaffold_returns_only_if [] [] [] None project_fs (u "pdf-filler")
           false [u "repo"; u ".github"; u "skills"]
           (World (root project_fs) []));
    vm_compute; reflexivity.
Defined.

End ScaffolderOnSamples.
